(** * Motely word-list generator: [generate_massive_wordlists.py]

    A shallow embedding of the generator and the proofs of its specified
    properties.

    Conventions of the embedding.
    - A Python [str] is a [string]; one [ascii] is one character.  The
      embedding is exact on ASCII words, which is what the program's word
      lists hold; [upper] is Python's [str.upper] on ASCII.
    - A Python [set] of strings is the sequence of the [add] calls that
      built it (type [pyset], most recent first).  Membership is list
      membership.  The order in which Python enumerates a set ([list(s)],
      [for x in s], [update]) is not fixed by the language: it is the
      parameter [set_iter] of the development, constrained only by
      [set_iter_spec] (each member once, nothing else).
    - Lengths are [nat].  Every subtraction of the source that is tested
      or used as a count is guarded by a length test, and a string
      repeated a negative number of times is empty in Python, which is
      what truncated subtraction gives.
    - [max_results] is a [nat] in [generate_padded_combinations], whose
      callers all pass the default 200; [generate_padded_combinations_int]
      is the same function with the cap a Python int, negative values
      included.
    - [print] calls are not modelled. *)

From Stdlib Require Import Ascii.
From Stdlib Require String.
From stdpp Require Import base list strings sorting.

(** ** Strings *)

(** [c in s] for a one-character [c]. *)
Fixpoint char_in (c : ascii) (s : string) : bool :=
  match s with
  | EmptyString => false
  | String a s' => Ascii.eqb c a || char_in c s'
  end.

Fixpoint str_map (f : ascii → ascii) (s : string) : string :=
  match s with
  | EmptyString => EmptyString
  | String a s' => String (f a) (str_map f s')
  end.

(** [''.join(c for c in s if p c)] *)
Fixpoint str_filter (p : ascii → bool) (s : string) : string :=
  match s with
  | EmptyString => EmptyString
  | String a s' => if p a then String a (str_filter p s') else str_filter p s'
  end.

(** [all(p c for c in s)] *)
Fixpoint str_forall (p : ascii → bool) (s : string) : bool :=
  match s with
  | EmptyString => true
  | String a s' => p a && str_forall p s'
  end.

(** [s * n] *)
Fixpoint str_repeat (s : string) (n : nat) : string :=
  match n with
  | 0 => EmptyString
  | S n' => s +:+ str_repeat s n'
  end.

(** [s[-1]] and [s[0]], as one-character strings.  Python raises on the
    empty string; the only caller has excluded it. *)
Fixpoint str_last (s : string) : string :=
  match s with
  | EmptyString => EmptyString
  | String a EmptyString => String a EmptyString
  | String _ s' => str_last s'
  end.

Definition str_first (s : string) : string :=
  match s with
  | EmptyString => EmptyString
  | String a _ => String a EmptyString
  end.

(** [s[:n]] *)
Definition str_prefix (n : nat) (s : string) : string := String.substring 0 n s.

Definition upper_char (c : ascii) : ascii :=
  let n := nat_of_ascii c in
  if (97 <=? n) && (n <=? 122) then ascii_of_nat (n - 32) else c.

(** [s.upper()] *)
Definition upper (s : string) : string := str_map upper_char s.

(** [s.replace(c, d)] for one-character [c] and [d]. *)
Definition str_replace (c d : ascii) (s : string) : string :=
  str_map (λ a, if Ascii.eqb a c then d else a) s.

Definition newline_char : ascii := ascii_of_nat 10.
Definition newline : string := String newline_char EmptyString.

(** ** Constants of the program *)

Definition VALID_CHARS : string := "123456789ABCDEFGHIJKLMNOPQRSTUVWXYZ".

Definition NUMBERS : list string := ["1"; "2"; "3"; "4"; "5"; "6"; "7"; "8"; "9"].

Definition POPULAR_NUMS : list string :=
  ["69"; "42"; "666"; "777"; "888"; "999"; "123"; "321"; "111"; "222"; "333";
   "444"; "555"; "1337"; "9999"; "8888"; "7777"; "1234"; "4321"; "2222";
   "3333"; "4444"; "5555"; "6666"; "1111"].

Definition COOL_WORDS : list string :=
  ["GAME"; "PLAY"; "WIN"; "LOSS"; "EPIC"; "MEGA"; "GIGA"; "TERA";
   "BOSS"; "HERO"; "GOD"; "KING"; "QUEEN"; "ACE"; "JOKER"; "CARD"; "DECK"; "HAND";
   "BET"; "FOLD"; "CALL"; "RAISE"; "BLUFF"; "POKER"; "FLUSH"; "ROYAL"; "FULL";
   "PAIR"; "TRIPS"; "QUADS"; "HIGH"; "LOW"; "WILD"; "DRAW"; "DEAL";
   "POWER"; "FORCE"; "ULTRA"; "SUPER"; "HYPER"; "TURBO"; "NITRO"; "BOOST"; "SPEED";
   "FAST"; "QUICK"; "SWIFT"; "RAPID"; "FLASH"; "BOLT"; "SHOCK"; "SPARK"; "FLAME";
   "FIRE"; "ICE"; "FROST"; "FREEZE"; "BURN"; "BLAZE"; "STORM"; "WIND"; "GALE";
   "CHAD"; "SIGMA"; "ALPHA"; "BETA"; "OMEGA"; "DELTA"; "GAMMA"; "PRIME"; "ELITE";
   "PRO"; "MASTER"; "LEGEND"; "MYTH"; "FABLE"; "SAGA"; "TALE"; "LORE"; "DOOM";
   "TECH"; "CYBER"; "HACK"; "CODE"; "DATA"; "BYTE"; "BIT"; "PIXEL"; "MATRIX";
   "GRID"; "NET"; "WEB"; "LINK"; "NODE"; "PORT"; "GATE"; "CORE"; "SYSTEM";
   "DRAGON"; "PHOENIX"; "WOLF"; "BEAR"; "LION"; "TIGER"; "EAGLE"; "HAWK"; "RAVEN";
   "SHARK"; "WHALE"; "VIPER"; "COBRA"; "PYTHON"; "BEAST"; "MONSTER";
   "MAX"; "MAXX"; "NEO"; "ZEN"; "APEX"; "PEAK"; "TOP"; "BEST"; "PURE"; "TRUE";
   "REAL"; "FAKE"; "ANTI"; "DARK"; "LIGHT"; "VOID"; "NULL"; "ZERO"; "ONE"; "TWO";
   "RED"; "BLUE"; "GREEN"; "GOLD"; "BLACK"; "WHITE"; "GRAY"; "NEON"; "GLOW"].

Definition DEFAULT_MAX_RESULTS : nat := 200.

(** [c in VALID_CHARS] *)
Definition valid_char (c : ascii) : bool := char_in c VALID_CHARS.

(** [len(s) == 8 and all(c in VALID_CHARS for c in s)] *)
Definition valid_seed (s : string) : bool :=
  (String.length s =? 8) && str_forall valid_char s.

(** ** Python sets *)

Definition pyset := list string.

Definition set_add (x : string) (s : pyset) : pyset := x :: s.

(** [set(l)] *)
Definition set_of_list (l : list string) : pyset :=
  fold_left (λ s x, set_add x s) l [].

(** [l[:k]] for a Python int [k]: the first [k] items, and for a negative
    [k] all but the last [-k]. *)
Definition py_slice_to {A} (k : Z) (l : list A) : list A :=
  if (k <? 0)%Z then take (length l - Z.to_nat (- k)) l else take (Z.to_nat k) l.

(** What an enumeration order of sets has to satisfy. *)
Definition set_iter_spec (iter : pyset → list string) : Prop :=
  ∀ s, NoDup (iter s) ∧ ∀ x, x ∈ iter s ↔ x ∈ s.

(** Two enumeration orders: last insertion first, and its reverse. *)
Definition iter_recent (s : pyset) : list string := remove_dups s.
Definition iter_oldest (s : pyset) : list string := reverse (remove_dups s).

(** The file and the value that [generate_word_combinations] produces. *)
Record output := Output {
  lines : list string;   (* valid_seeds, after the sort *)
  text : string;         (* what is written: the lines joined by a newline *)
  count : nat            (* the value returned *)
}.

Section Generator.

Variable set_iter : pyset → list string.

(** [s.update(t)] *)
Definition set_update (s t : pyset) : pyset :=
  fold_left (λ acc x, set_add x acc) (set_iter t) s.

(** *** [generate_padded_combinations] *)

Definition fillers : list string := ["1"; "9"; "X"; "Z"].

Definition pad_chars : list string :=
  ["1"; "2"; "3"; "4"; "5"; "6"; "7"; "8"; "9"; "X"; "Z"; "Q"].

(** The body of [# Pad at end]. *)
Definition pad_at_end (word num : string) (results : pyset) : pyset :=
  if String.length (word +:+ num) <=? 8 then
    let remaining := 8 - String.length word - String.length num in
    if remaining =? 0 then set_add (word +:+ num) results
    else if 0 <? remaining then
      fold_left
        (λ r filler, set_add ((word +:+ num) +:+ str_repeat filler remaining) r)
        fillers results
    else results
  else results.

(** The body of [# Pad at start]. *)
Definition pad_at_start (word num : string) (results : pyset) : pyset :=
  if String.length (num +:+ word) <=? 8 then
    let remaining := 8 - String.length num - String.length word in
    if remaining =? 0 then set_add (num +:+ word) results
    else if 0 <? remaining then
      fold_left
        (λ r filler, set_add ((num +:+ word) +:+ str_repeat filler remaining) r)
        fillers results
    else results
  else results.

(** One turn of the loop [for num in POPULAR_NUMS]. *)
Definition pad_num (word : string) (needed : nat) (results : pyset)
    (num : string) : pyset :=
  if String.length num <=? needed then
    pad_at_start word num (pad_at_end word num results)
  else results.

(** [results] when the line [# Limit results] is reached, for a normalized
    [word] of 1 to 7 characters. *)
Definition padded_candidates (word : string) : pyset :=
  let needed := 8 - String.length word in
  let results := fold_left (pad_num word needed) POPULAR_NUMS [] in
  let results := set_add (word +:+ str_repeat (str_last word) needed) results in
  let results := set_add (str_repeat (str_first word) needed +:+ word) results in
  fold_left (λ r pad_char, set_add (word +:+ str_repeat pad_char needed) r)
    pad_chars results.

(** The first two statements: uppercase, then remove invalid characters. *)
Definition normalize (word : string) : string :=
  str_filter valid_char (upper word).

Definition generate_padded_combinations (word : string) (max_results : nat)
    : pyset :=
  let results : pyset := [] in
  let word := normalize word in
  if (String.length word =? 0) || (8 <? String.length word) then results
  else if String.length word =? 8 then set_add word results
  else set_of_list (take max_results (set_iter (padded_candidates word))).

(** [generate_padded_combinations] with [max_results] a Python int: the
    slice [list(results)[:max_results]] counts from the end when
    [max_results] is negative. *)
Definition generate_padded_combinations_int (word : string) (max_results : Z)
    : pyset :=
  let results : pyset := [] in
  let word := normalize word in
  if (String.length word =? 0) || (8 <? String.length word) then results
  else if String.length word =? 8 then set_add word results
  else set_of_list (py_slice_to max_results (set_iter (padded_candidates word))).

(** *** [generate_leet_variations] *)

Definition leet_map : list (ascii * ascii) :=
  [("A", "4"); ("E", "3"); ("I", "1"); ("O", "0"); ("S", "5"); ("T", "7");
   ("G", "6"); ("B", "8"); ("L", "1")]%char.

Definition leet_step (word : string) (variations : list string)
    (entry : ascii * ascii) : list string :=
  let '(char, leet) := entry in
  if char_in char word && char_in leet VALID_CHARS
  then variations ++ [str_replace char leet word]
  else variations.

Definition generate_leet_variations (word : string) : list string :=
  fold_left (leet_step word) leet_map [word].

(** *** [generate_word_combinations] *)

Definition number_patterns : list string :=
  ["69696969"; "42424242"; "66666666"; "77777777"; "88888888"; "99999999";
   "12345678"; "87654321"; "11111111"; "22222222"; "33333333"; "44444444";
   "55555555"; "13371337"; "42694269"; "69426942"; "11223344"; "44332211";
   "12121212"; "21212121"; "13131313"; "31313131"; "14141414"; "41414141";
   "69696942"; "42424269"; "69694242"; "42426969"; "13376969"; "69691337";
   "42421337"; "13374242"; "66669999"; "99996666"; "77778888"; "88887777";
   "12344321"; "43211234"; "11119999"; "99991111"; "66664242"; "42426666";
   "69997777"; "77776999"; "88884242"; "42428888"; "99994242"; "42429999"].

Definition combo_nums : list string :=
  ["69"; "42"; "666"; "777"; "888"; "999"; "123"; "321"; "111"].

(** One turn of the first loop [for word in words]. *)
Definition word_step (all_seeds : pyset) (word : string) : pyset :=
  if 8 <? String.length word then all_seeds
  else
    let padded := generate_padded_combinations word DEFAULT_MAX_RESULTS in
    let all_seeds := set_update all_seeds padded in
    fold_left
      (λ acc leet_word,
         set_update acc (generate_padded_combinations leet_word DEFAULT_MAX_RESULTS))
      (generate_leet_variations word) all_seeds.

Definition pattern_step (all_seeds : pyset) (pattern : string) : pyset :=
  if (String.length pattern =? 8) && str_forall valid_char pattern
  then set_add pattern all_seeds
  else all_seeds.

(** The body of the two nested loops over [words[:50]]. *)
Definition pair_step (word1 : string) (all_seeds : pyset) (word2 : string)
    : pyset :=
  if String.length word1 + String.length word2 <=? 8 then
    let combined := word1 +:+ word2 in
    if String.length combined <? 8 then
      set_update all_seeds (generate_padded_combinations combined DEFAULT_MAX_RESULTS)
    else if String.length combined =? 8 then set_add combined all_seeds
    else all_seeds
  else all_seeds.

(** The body of the loops [for word in words: for num in [...]]. *)
Definition num_step (word : string) (all_seeds : pyset) (num : string) : pyset :=
  if String.length word + String.length num <=? 8 then
    let slack := 8 - String.length word - String.length num in
    let all_seeds :=
      set_add (str_prefix 8 ((word +:+ num) +:+ str_repeat "1" slack)) all_seeds in
    let all_seeds :=
      set_add (str_prefix 8 ((num +:+ word) +:+ str_repeat "1" slack)) all_seeds in
    let all_seeds :=
      set_add (str_prefix 8 ((word +:+ num) +:+ str_repeat "X" slack)) all_seeds in
    set_add (str_prefix 8 ((num +:+ word) +:+ str_repeat "Z" slack)) all_seeds
  else all_seeds.

(** [all_seeds] when the line [# Filter to ensure ...] is reached. *)
Definition collect_seeds (words : list string) : pyset :=
  let all_seeds : pyset := [] in
  let all_seeds := fold_left word_step words all_seeds in
  let all_seeds := fold_left pattern_step number_patterns all_seeds in
  let all_seeds :=
    fold_left (λ acc word1, fold_left (pair_step word1) (take 50 words) acc)
      (take 50 words) all_seeds in
  fold_left (λ acc word, fold_left (num_step word) combo_nums acc)
    words all_seeds.

Definition generate_word_combinations (words : list string) : output :=
  let all_seeds := collect_seeds words in
  let valid_seeds := filter (λ s, valid_seed s = true) (set_iter all_seeds) in
  let valid_seeds := merge_sort String.le valid_seeds in
  Output valid_seeds (String.concat newline valid_seeds) (length valid_seeds).

End Generator.

(** ** Notions used in the statements *)

(** Every character of [s] is in the alphabet. *)
Definition good (s : string) : Prop := str_forall valid_char s = true.


(** The two sets have the same members. *)
Definition same_members (s t : pyset) : Prop := ∀ x, x ∈ s ↔ x ∈ t.

(** The normalization of [word] is empty or has at least 4 characters:
    the padding phase then makes at most 142 additions. *)
Definition cap_free (word : string) : Prop :=
  String.length (normalize word) = 0 ∨ 4 ≤ String.length (normalize word).

(** Additions made by [# Pad at end] (and by [# Pad at start]) for a word
    of [L] characters and a number of [n] characters. *)
Definition pad_count (L n : nat) : nat :=
  if L + n <=? 8 then (if 8 - L - n =? 0 then 1 else 4) else 0.

Definition pad_num_count (L needed n : nat) : nat :=
  if n <=? needed then 2 * pad_count L n else 0.

Definition candidates_count (L : nat) : nat :=
  sum_list_with (λ num, pad_num_count L (8 - L) (String.length num)) POPULAR_NUMS
  + 14.

(** [s.split(sep)] for a one-character [sep]: how the written text reads
    back as lines. *)
Fixpoint str_split (sep : ascii) (s : string) : list string :=
  match s with
  | EmptyString => [EmptyString]
  | String a s' =>
      if Ascii.eqb sep a then EmptyString :: str_split sep s'
      else match str_split sep s' with
           | [] => [String a EmptyString]
           | t :: ts => String a t :: ts
           end
  end.

(** The four strings that one turn of the word-and-number loop adds. *)
Definition num_arrangements (word num : string) : list string :=
  let slack := 8 - String.length word - String.length num in
  [str_prefix 8 ((word +:+ num) +:+ str_repeat "1" slack);
   str_prefix 8 ((num +:+ word) +:+ str_repeat "1" slack);
   str_prefix 8 ((word +:+ num) +:+ str_repeat "X" slack);
   str_prefix 8 ((num +:+ word) +:+ str_repeat "Z" slack)].

(** [s] is added for [word] by the first loop: the word passes the length
    test and [s] is a padded combination of one of its variations. *)
Definition from_word (iter : pyset → list string) (word s : string) : Prop :=
  String.length word ≤ 8
  ∧ ∃ v, v ∈ generate_leet_variations word
         ∧ s ∈ generate_padded_combinations iter v DEFAULT_MAX_RESULTS.

(** [s] is added for the pair [word1], [word2] by the two-word loop. *)
Definition from_pair (iter : pyset → list string) (word1 word2 s : string)
    : Prop :=
  (String.length word1 + String.length word2 < 8
   ∧ s ∈ generate_padded_combinations iter (word1 +:+ word2) DEFAULT_MAX_RESULTS)
  ∨ (String.length word1 + String.length word2 = 8 ∧ s = word1 +:+ word2).

(** [s] is added for [word] and [num] by the word-and-number loop. *)
Definition from_num (word num s : string) : Prop :=
  String.length word + String.length num ≤ 8 ∧ s ∈ num_arrangements word num.

(** [s] is added to [all_seeds] by one of the four phases. *)
Definition seed_source (iter : pyset → list string) (words : list string)
    (s : string) : Prop :=
  (∃ w, w ∈ words ∧ from_word iter w s)
  ∨ s ∈ number_patterns
  ∨ (∃ w1 w2, w1 ∈ take 50 words ∧ w2 ∈ take 50 words ∧ from_pair iter w1 w2 s)
  ∨ (∃ w num, w ∈ words ∧ num ∈ combo_nums ∧ from_num w num s).

(** The keys of [leet_map] whose replacement is in the alphabet. *)
Definition leet_letters : list ascii :=
  fst <$> List.filter (λ entry, char_in entry.2 VALID_CHARS) leet_map.

(** Closes a decidable goal by evaluation. *)
Ltac by_compute :=
  match goal with
  | |- ?P => apply (@bool_decide_unpack P _); vm_compute; exact I
  end.

(** ** Facts about strings *)

Lemma str_app_cons a s t : String a s +:+ t = String a (s +:+ t).
Proof. reflexivity. Qed.

Lemma str_length_app s t :
  String.length (s +:+ t) = String.length s + String.length t.
Proof.
  induction s as [|a s IH]; [done|].
  rewrite str_app_cons. simpl. by rewrite IH.
Qed.

Lemma str_length_repeat s n :
  String.length (str_repeat s n) = n * String.length s.
Proof.
  induction n as [|n IH]; simpl; [done|].
  rewrite str_length_app, IH. lia.
Qed.

Lemma str_forall_app p s t :
  str_forall p (s +:+ t) = str_forall p s && str_forall p t.
Proof.
  induction s as [|a s IH]; [done|].
  rewrite str_app_cons. simpl. rewrite IH. by destruct (p a).
Qed.

Lemma str_forall_repeat p s n :
  str_forall p s = true → str_forall p (str_repeat s n) = true.
Proof.
  intros Hs. induction n as [|n IH]; simpl; [done|].
  by rewrite str_forall_app, Hs, IH.
Qed.

Lemma str_forall_filter p s : str_forall p (str_filter p s) = true.
Proof.
  induction s as [|a s IH]; simpl; [done|].
  destruct (p a) eqn:Ha; simpl; [by rewrite Ha|done].
Qed.

Lemma str_forall_last p s :
  str_forall p s = true → str_forall p (str_last s) = true.
Proof.
  induction s as [|a s IH]; [done|].
  intros [Ha Hs]%andb_true_iff. destruct s as [|b s]; simpl in *.
  - by rewrite Ha.
  - by apply IH.
Qed.

Lemma str_forall_first p s :
  str_forall p s = true → str_forall p (str_first s) = true.
Proof.
  destruct s as [|a s]; simpl; [done|].
  intros [Ha _]%andb_true_iff. by rewrite Ha.
Qed.

Lemma str_length_last s : 0 < String.length s → String.length (str_last s) = 1.
Proof.
  induction s as [|a s IH]; simpl; [lia|].
  intros _. destruct s as [|b s]; [done|]. apply IH. simpl. lia.
Qed.

Lemma str_length_first s : 0 < String.length s → String.length (str_first s) = 1.
Proof. destruct s; simpl; [lia|done]. Qed.

(** ** Facts about sets *)

Lemma fold_add_map {B} (f : B → string) (l : list B) (s : pyset) :
  fold_left (λ r y, set_add (f y) r) l s = reverse (f <$> l) ++ s.
Proof.
  revert s. induction l as [|y l IH]; intros s; simpl; [done|].
  rewrite IH. unfold set_add. rewrite reverse_cons, <- app_assoc. done.
Qed.

Lemma set_of_list_reverse (l : list string) : set_of_list l = reverse l.
Proof.
  unfold set_of_list. rewrite (fold_add_map id), list_fmap_id.
  apply app_nil_r.
Qed.

Lemma set_update_eq iter (s t : pyset) :
  set_update iter s t = reverse (iter t) ++ s.
Proof.
  unfold set_update. by rewrite (fold_add_map id), list_fmap_id.
Qed.

Lemma iter_recent_spec : set_iter_spec iter_recent.
Proof.
  intros s. split; [apply NoDup_remove_dups|].
  intros x. apply elem_of_remove_dups.
Qed.

Lemma iter_oldest_spec : set_iter_spec iter_oldest.
Proof.
  intros s. unfold iter_oldest. split.
  - rewrite reverse_Permutation. apply NoDup_remove_dups.
  - intros x. rewrite elem_of_reverse. apply elem_of_remove_dups.
Qed.

(** A loop keeps what every turn keeps. *)
Lemma fold_left_invariant {A B} (P : A → Prop) (f : A → B → A) (l : list B) a :
  (∀ a b, b ∈ l → P a → P (f a b)) → P a → P (fold_left f l a).
Proof.
  revert a. induction l as [|b l IH]; intros a Hf Ha; simpl; [done|].
  apply IH.
  - intros a' b' Hb'. apply Hf. by right.
  - apply Hf; [by left|done].
Qed.

(** ** The padding phase *)

Lemma valid_seed_iff s : valid_seed s = true ↔ String.length s = 8 ∧ good s.
Proof. unfold valid_seed, good. by rewrite andb_true_iff, Nat.eqb_eq. Qed.

Lemma good_app s t : good s → good t → good (s +:+ t).
Proof. unfold good. intros Hs Ht. by rewrite str_forall_app, Hs, Ht. Qed.

Lemma good_repeat s n : good s → good (str_repeat s n).
Proof. apply str_forall_repeat. Qed.

Lemma good_normalize w : good (normalize w).
Proof. apply str_forall_filter. Qed.

Lemma fillers_good : Forall (λ c, good c ∧ String.length c = 1) fillers.
Proof. by repeat constructor. Qed.

Lemma pad_chars_good : Forall (λ c, good c ∧ String.length c = 1) pad_chars.
Proof. by repeat constructor. Qed.

Lemma POPULAR_NUMS_good : Forall good POPULAR_NUMS.
Proof. by repeat constructor. Qed.

Lemma filled_valid (base filler : string) (remaining : nat) :
  good base → good filler → String.length filler = 1 →
  String.length base + remaining = 8 →
  valid_seed (base +:+ str_repeat filler remaining) = true.
Proof.
  intros Hb Hf Hl Hlen. apply valid_seed_iff. split.
  - rewrite str_length_app, str_length_repeat, Hl. lia.
  - by apply good_app, good_repeat.
Qed.

Lemma pad_at_end_valid word num results :
  good word → good num →
  Forall (λ s, valid_seed s = true) results →
  Forall (λ s, valid_seed s = true) (pad_at_end word num results).
Proof.
  intros Hw Hn Hr. unfold pad_at_end. rewrite str_length_app.
  destruct (_ <=? 8) eqn:Hle; [|done]. apply Nat.leb_le in Hle.
  destruct (_ =? 0) eqn:Hz.
  - apply Nat.eqb_eq in Hz. constructor; [|done].
    apply valid_seed_iff. split; [rewrite str_length_app; lia|by apply good_app].
  - destruct (0 <? _); [|done].
    apply fold_left_invariant; [|done]. intros a filler Hin Ha.
    destruct (proj1 (Forall_forall _ _) fillers_good _ Hin) as [Hf Hl].
    constructor; [|done]. apply filled_valid; [by apply good_app|done..|].
    rewrite str_length_app. lia.
Qed.

Lemma pad_at_start_valid word num results :
  good word → good num →
  Forall (λ s, valid_seed s = true) results →
  Forall (λ s, valid_seed s = true) (pad_at_start word num results).
Proof.
  intros Hw Hn Hr. unfold pad_at_start. rewrite str_length_app.
  destruct (_ <=? 8) eqn:Hle; [|done]. apply Nat.leb_le in Hle.
  destruct (_ =? 0) eqn:Hz.
  - apply Nat.eqb_eq in Hz. constructor; [|done].
    apply valid_seed_iff. split; [rewrite str_length_app; lia|by apply good_app].
  - destruct (0 <? _); [|done].
    apply fold_left_invariant; [|done]. intros a filler Hin Ha.
    destruct (proj1 (Forall_forall _ _) fillers_good _ Hin) as [Hf Hl].
    constructor; [|done]. apply filled_valid; [by apply good_app|done..|].
    rewrite str_length_app. lia.
Qed.

Lemma padded_candidates_valid word :
  good word → 0 < String.length word < 8 →
  Forall (λ s, valid_seed s = true) (padded_candidates word).
Proof.
  intros Hw Hlen. unfold padded_candidates.
  apply fold_left_invariant.
  { intros a c Hin Ha.
    destruct (proj1 (Forall_forall _ _) pad_chars_good _ Hin) as [Hc Hl].
    constructor; [|done]. apply filled_valid; [done..|lia]. }
  constructor.
  { apply valid_seed_iff. split.
    - rewrite str_length_app, str_length_repeat, str_length_first; lia.
    - apply good_app; [|done]. by apply good_repeat, str_forall_first. }
  constructor.
  { apply filled_valid; [done| |by apply str_length_last; lia|lia].
    by apply str_forall_last. }
  apply fold_left_invariant; [|constructor].
  intros a num Hin Ha. unfold pad_num. destruct (_ <=? _); [|done].
  pose proof (proj1 (Forall_forall _ _) POPULAR_NUMS_good _ Hin) as Hn.
  by apply pad_at_start_valid, pad_at_end_valid.
Qed.

(** The three ways out of [generate_padded_combinations]. *)
Lemma gpc_skip iter word max_results :
  String.length (normalize word) = 0 ∨ 8 < String.length (normalize word) →
  generate_padded_combinations iter word max_results = [].
Proof.
  intros H. unfold generate_padded_combinations.
  destruct (_ =? 0) eqn:H0; [done|]. destruct (8 <? _) eqn:H8; [done|].
  apply Nat.eqb_neq in H0. apply Nat.ltb_ge in H8. lia.
Qed.

Lemma gpc_exact iter word max_results :
  String.length (normalize word) = 8 →
  generate_padded_combinations iter word max_results = [normalize word].
Proof. intros H. unfold generate_padded_combinations. by rewrite H. Qed.

Lemma gpc_short iter word max_results :
  0 < String.length (normalize word) < 8 →
  generate_padded_combinations iter word max_results
  = reverse (take max_results (iter (padded_candidates (normalize word)))).
Proof.
  intros H. unfold generate_padded_combinations.
  destruct (_ =? 0) eqn:H0; [apply Nat.eqb_eq in H0; lia|].
  destruct (8 <? _) eqn:H8; [apply Nat.ltb_lt in H8; lia|].
  destruct (_ =? 8) eqn:H8'; [apply Nat.eqb_eq in H8'; lia|].
  simpl. apply set_of_list_reverse.
Qed.

Lemma gpc_cases word :
  (String.length (normalize word) = 0 ∨ 8 < String.length (normalize word))
  ∨ String.length (normalize word) = 8
  ∨ 0 < String.length (normalize word) < 8.
Proof. lia. Qed.

Lemma gpc_subset iter word max_results s :
  (∀ h x, x ∈ iter h → x ∈ h) →
  0 < String.length (normalize word) < 8 →
  s ∈ generate_padded_combinations iter word max_results →
  s ∈ padded_candidates (normalize word).
Proof.
  intros Hiter Hlen. rewrite gpc_short by done. rewrite elem_of_reverse.
  intros Hs. by apply Hiter, (subseteq_take max_results).
Qed.

Lemma gpc_valid iter word max_results s :
  set_iter_spec iter →
  s ∈ generate_padded_combinations iter word max_results →
  valid_seed s = true.
Proof.
  intros Hiter Hs. destruct (gpc_cases word) as [H|[H|H]].
  - rewrite gpc_skip in Hs by done. by apply elem_of_nil in Hs.
  - rewrite gpc_exact in Hs by done. apply list_elem_of_singleton in Hs as ->.
    apply valid_seed_iff. split; [done|apply good_normalize].
  - apply gpc_subset in Hs; [|intros h x; apply Hiter|done].
    revert s Hs. apply Forall_forall, padded_candidates_valid; [|done].
    apply good_normalize.
Qed.

(** *** How many additions the padding phase makes *)

Lemma pad_at_end_length word num results :
  length (pad_at_end word num results)
  = pad_count (String.length word) (String.length num) + length results.
Proof.
  unfold pad_at_end, pad_count. rewrite str_length_app.
  destruct (_ <=? 8) eqn:Hle; [|done]. apply Nat.leb_le in Hle.
  destruct (_ =? 0) eqn:Hz; [done|]. apply Nat.eqb_neq in Hz.
  destruct (0 <? _) eqn:Hp; [done|]. apply Nat.ltb_ge in Hp. lia.
Qed.

Lemma pad_at_start_length word num results :
  length (pad_at_start word num results)
  = pad_count (String.length word) (String.length num) + length results.
Proof.
  unfold pad_at_start, pad_count. rewrite str_length_app.
  rewrite (Nat.add_comm (String.length num)).
  replace (8 - String.length num - String.length word)
    with (8 - String.length word - String.length num) by lia.
  destruct (_ <=? 8) eqn:Hle; [|done]. apply Nat.leb_le in Hle.
  destruct (_ =? 0) eqn:Hz; [done|]. apply Nat.eqb_neq in Hz.
  destruct (0 <? _) eqn:Hp; [done|]. apply Nat.ltb_ge in Hp. lia.
Qed.

Lemma pad_num_length word needed results num :
  length (pad_num word needed results num)
  = pad_num_count (String.length word) needed (String.length num)
    + length results.
Proof.
  unfold pad_num, pad_num_count. destruct (_ <=? needed); [|done].
  rewrite pad_at_start_length, pad_at_end_length. lia.
Qed.

Lemma number_padding_length word needed nums results :
  length (fold_left (pad_num word needed) nums results)
  = sum_list_with (λ num, pad_num_count (String.length word) needed
                            (String.length num)) nums
    + length results.
Proof.
  revert results. induction nums as [|num nums IH]; intros results; [done|].
  simpl. rewrite IH, pad_num_length. lia.
Qed.

Lemma padded_candidates_length word :
  length (padded_candidates word) = candidates_count (String.length word).
Proof.
  unfold padded_candidates, candidates_count.
  rewrite fold_add_map, length_app, length_reverse, length_fmap.
  unfold set_add. rewrite !length_cons, number_padding_length.
  change (length pad_chars) with 12. change (length (@nil string)) with 0.
  lia.
Qed.

Lemma candidates_count_below_cap L :
  4 ≤ L → candidates_count L ≤ DEFAULT_MAX_RESULTS.
Proof.
  intros HL. unfold DEFAULT_MAX_RESULTS.
  destruct (decide (L ≤ 8)) as [Hle|Hgt].
  - assert (L = 4 ∨ L = 5 ∨ L = 6 ∨ L = 7 ∨ L = 8) as H by lia.
    destruct H as [->|[->|[->|[->| ->]]]]; vm_compute; lia.
  - replace (candidates_count L) with 14; [lia|].
    unfold candidates_count. replace (8 - L) with 0 by lia.
    assert (∀ l : list string,
      Forall (λ num, 0 < String.length num) l →
      sum_list_with (λ num, pad_num_count L 0 (String.length num)) l = 0) as H.
    { induction 1 as [|num l Hn _ IH]; [done|]. simpl. rewrite IH.
      unfold pad_num_count. destruct (_ <=? 0) eqn:E; [|done].
      apply Nat.leb_le in E. lia. }
    rewrite H; [done|]. repeat constructor.
Qed.

(** Below the cap the truncation keeps everything. *)
Lemma take_iter_all iter (h : pyset) n :
  set_iter_spec iter → length h ≤ n → take n (iter h) = iter h.
Proof.
  intros Hiter Hn. apply take_ge. etrans; [|exact Hn].
  destruct (Hiter h) as [Hnd Hel].
  apply NoDup_incl_length.
  - by apply NoDup_ListNoDup.
  - intros x Hx. apply list_elem_of_In, Hel, list_elem_of_In, Hx.
Qed.

Lemma gpc_elem_below_cap iter word s :
  set_iter_spec iter →
  4 ≤ String.length (normalize word) < 8 →
  s ∈ generate_padded_combinations iter word DEFAULT_MAX_RESULTS
  ↔ s ∈ padded_candidates (normalize word).
Proof.
  intros Hiter Hlen. rewrite gpc_short by lia.
  rewrite take_iter_all; [|done|].
  - rewrite elem_of_reverse. apply Hiter.
  - rewrite padded_candidates_length. apply candidates_count_below_cap. lia.
Qed.

(** ** The accumulated set only grows *)

Lemma set_update_elem iter (s t : pyset) x :
  set_iter_spec iter → x ∈ set_update iter s t ↔ x ∈ t ∨ x ∈ s.
Proof.
  intros Hiter. rewrite set_update_eq, elem_of_app, elem_of_reverse.
  by rewrite (proj2 (Hiter t) x).
Qed.

Lemma set_update_mono iter (s t : pyset) x : x ∈ s → x ∈ set_update iter s t.
Proof. intros Hx. rewrite set_update_eq, elem_of_app. by right. Qed.

Lemma set_add_mono (s : pyset) y x : x ∈ s → x ∈ set_add y s.
Proof. intros Hx. by right. Qed.

Lemma pattern_step_mono s p x : x ∈ s → x ∈ pattern_step s p.
Proof. unfold pattern_step. destruct (_ && _); [apply set_add_mono|done]. Qed.

Lemma pair_step_mono iter w1 s w2 x : x ∈ s → x ∈ pair_step iter w1 s w2.
Proof.
  intros Hx. unfold pair_step. destruct (_ <=? 8); [|done].
  destruct (_ <? 8); [by apply set_update_mono|].
  destruct (_ =? 8); [by apply set_add_mono|done].
Qed.

Lemma num_step_mono w s num x : x ∈ s → x ∈ num_step w s num.
Proof.
  intros Hx. unfold num_step. destruct (_ <=? 8); [|done].
  by do 4 apply set_add_mono.
Qed.

Lemma pattern_phase_elem patterns s p :
  p ∈ patterns → valid_seed p = true → p ∈ fold_left pattern_step patterns s.
Proof.
  revert s. induction patterns as [|q patterns IH]; intros s Hin Hp.
  { by apply elem_of_nil in Hin. }
  simpl. apply elem_of_cons in Hin as [->|Hin]; [|by apply IH].
  apply (fold_left_invariant (λ a, q ∈ a)).
  - intros a b _. apply pattern_step_mono.
  - unfold pattern_step. fold (valid_seed q). rewrite Hp. by left.
Qed.

Lemma collect_seeds_patterns iter words p :
  p ∈ number_patterns → valid_seed p = true → p ∈ collect_seeds iter words.
Proof.
  intros Hin Hp. unfold collect_seeds.
  apply (fold_left_invariant (λ a, p ∈ a)).
  { intros a w _ Ha. apply (fold_left_invariant (λ a, p ∈ a)); [|done].
    intros a' num _. apply num_step_mono. }
  apply (fold_left_invariant (λ a, p ∈ a)).
  { intros a w1 _ Ha. apply (fold_left_invariant (λ a, p ∈ a)); [|done].
    intros a' w2 _. apply pair_step_mono. }
  by apply pattern_phase_elem.
Qed.

Lemma number_patterns_valid :
  Forall (λ p, valid_seed p = true) number_patterns.
Proof. by repeat constructor. Qed.

(** ** The written lines *)

Lemma str_forall_char_in p s c :
  str_forall p s = true → char_in c s = true → p c = true.
Proof.
  induction s as [|a s IH]; simpl; [done|].
  intros [Ha Hs]%andb_true_iff [Hc|Hc]%orb_true_iff; [|by apply IH].
  by apply Ascii.eqb_eq in Hc as ->.
Qed.

Lemma lines_elem iter words s :
  s ∈ lines (generate_word_combinations iter words)
  ↔ valid_seed s = true ∧ s ∈ iter (collect_seeds iter words).
Proof.
  unfold generate_word_combinations, lines.
  by rewrite merge_sort_Permutation, list_elem_of_filter.
Qed.

Lemma lines_NoDup iter words :
  set_iter_spec iter → NoDup (lines (generate_word_combinations iter words)).
Proof.
  intros Hiter. unfold generate_word_combinations, lines.
  rewrite merge_sort_Permutation. apply NoDup_filter, Hiter.
Qed.

Lemma lines_sorted iter words :
  StronglySorted String.le (lines (generate_word_combinations iter words)).
Proof. apply (StronglySorted_merge_sort String.le). Qed.



(** Two runs whose accumulated sets have the same members write the same
    lines, whatever the enumeration orders. *)
Lemma sorted_filter_same iter1 iter2 (s t : pyset) :
  set_iter_spec iter1 → set_iter_spec iter2 → same_members s t →
  merge_sort String.le (filter (λ x, valid_seed x = true) (iter1 s))
  = merge_sort String.le (filter (λ x, valid_seed x = true) (iter2 t)).
Proof.
  intros H1 H2 Hst. apply (StronglySorted_unique String.le).
  - apply (StronglySorted_merge_sort String.le).
  - apply (StronglySorted_merge_sort String.le).
  - rewrite !merge_sort_Permutation. apply filter_Permutation.
    apply NoDup_Permutation; [apply H1|apply H2|].
    intros x. rewrite (proj2 (H1 s) x), (proj2 (H2 t) x). apply Hst.
Qed.

Lemma output_same iter1 iter2 words :
  set_iter_spec iter1 → set_iter_spec iter2 →
  same_members (collect_seeds iter1 words) (collect_seeds iter2 words) →
  generate_word_combinations iter1 words = generate_word_combinations iter2 words.
Proof.
  intros H1 H2 Hs. unfold generate_word_combinations.
  by rewrite (sorted_filter_same iter1 iter2 _ _ H1 H2 Hs).
Qed.

(** ** Runs that never reach the cap *)

Lemma fold_left_rel {A A' B} (R : A → A' → Prop) (f : A → B → A)
    (f' : A' → B → A') (l : list B) a a' :
  (∀ a a' b, b ∈ l → R a a' → R (f a b) (f' a' b)) →
  R a a' → R (fold_left f l a) (fold_left f' l a').
Proof.
  revert a a'. induction l as [|b l IH]; intros a a' Hf Ha; simpl; [done|].
  apply IH.
  - intros a1 a1' b' Hb'. apply Hf. by right.
  - apply Hf; [by left|done].
Qed.

Lemma set_add_same x s t :
  same_members s t → same_members (set_add x s) (set_add x t).
Proof. intros H y. unfold set_add. rewrite !elem_of_cons. by rewrite (H y). Qed.

Lemma set_update_same iter1 iter2 s s' t t' :
  set_iter_spec iter1 → set_iter_spec iter2 →
  same_members s s' → same_members t t' →
  same_members (set_update iter1 s t) (set_update iter2 s' t').
Proof.
  intros H1 H2 Hs Ht x. rewrite !set_update_elem by done.
  by rewrite (Hs x), (Ht x).
Qed.

Lemma gpc_same iter1 iter2 word :
  set_iter_spec iter1 → set_iter_spec iter2 → cap_free word →
  same_members (generate_padded_combinations iter1 word DEFAULT_MAX_RESULTS)
               (generate_padded_combinations iter2 word DEFAULT_MAX_RESULTS).
Proof.
  intros H1 H2 Hfree x. destruct (gpc_cases word) as [H|[H|H]].
  - by rewrite !gpc_skip.
  - by rewrite !gpc_exact.
  - rewrite !gpc_elem_below_cap; [done|done|..|done|]; unfold cap_free in Hfree; lia.
Qed.

Lemma str_map_app f s t : str_map f (s +:+ t) = str_map f s +:+ str_map f t.
Proof.
  induction s as [|a s IH]; [done|].
  rewrite str_app_cons. simpl. by rewrite IH.
Qed.

Lemma str_filter_app p s t :
  str_filter p (s +:+ t) = str_filter p s +:+ str_filter p t.
Proof.
  induction s as [|a s IH]; [done|].
  rewrite str_app_cons. simpl. rewrite IH. by destruct (p a).
Qed.

Lemma normalize_app s t : normalize (s +:+ t) = normalize s +:+ normalize t.
Proof. unfold normalize, upper. by rewrite str_map_app, str_filter_app. Qed.

Lemma cap_free_app s t : cap_free s → cap_free t → cap_free (s +:+ t).
Proof. unfold cap_free. rewrite normalize_app, str_length_app. lia. Qed.

Lemma normalize_replace_length c d word :
  valid_char (upper_char c) = true → valid_char (upper_char d) = true →
  String.length (normalize (str_replace c d word))
  = String.length (normalize word).
Proof.
  intros Hc Hd. unfold normalize, upper, str_replace.
  induction word as [|a word IH]; simpl; [done|].
  destruct (Ascii.eqb a c) eqn:E.
  - apply Ascii.eqb_eq in E as ->. rewrite Hc, Hd. simpl. by rewrite IH.
  - destruct (valid_char (upper_char a)); simpl; by rewrite IH.
Qed.

Lemma leet_map_checked :
  forallb (λ entry, implb (char_in entry.2 VALID_CHARS)
                      (valid_char (upper_char entry.1)
                       && valid_char (upper_char entry.2)))
    leet_map = true.
Proof. reflexivity. Qed.

Lemma leet_variations_length word v :
  v ∈ generate_leet_variations word →
  String.length (normalize v) = String.length (normalize word).
Proof.
  revert v. apply Forall_forall. unfold generate_leet_variations.
  apply fold_left_invariant; [|by repeat constructor].
  intros vars [c d] Hin Hvars. unfold leet_step.
  destruct (char_in d VALID_CHARS) eqn:Hd; [|by rewrite andb_false_r].
  destruct (char_in c word); [|done]. cbn [andb].
  apply Forall_app. split; [done|]. constructor; [|constructor].
  pose proof leet_map_checked as Hall.
  rewrite forallb_forall in Hall.
  apply list_elem_of_In, Hall in Hin. cbn [fst snd] in Hin.
  rewrite Hd in Hin. cbn [implb] in Hin.
  apply andb_true_iff in Hin as [? ?]. by apply normalize_replace_length.
Qed.

Lemma word_step_same iter1 iter2 s s' word :
  set_iter_spec iter1 → set_iter_spec iter2 → cap_free word →
  same_members s s' →
  same_members (word_step iter1 s word) (word_step iter2 s' word).
Proof.
  intros H1 H2 Hfree Hs. unfold word_step. destruct (8 <? _); [done|].
  apply (fold_left_rel same_members).
  - intros a a' v Hv Ha. apply set_update_same; [done..|].
    apply gpc_same; [done..|]. unfold cap_free.
    by rewrite (leet_variations_length word v Hv).
  - apply set_update_same; [done..|]. by apply gpc_same.
Qed.

Lemma pair_step_same iter1 iter2 s s' word1 word2 :
  set_iter_spec iter1 → set_iter_spec iter2 →
  cap_free word1 → cap_free word2 → same_members s s' →
  same_members (pair_step iter1 word1 s word2) (pair_step iter2 word1 s' word2).
Proof.
  intros H1 H2 Hf1 Hf2 Hs. unfold pair_step. destruct (_ <=? 8); [|done].
  destruct (_ <? 8).
  - apply set_update_same; [done..|]. apply gpc_same; [done..|].
    by apply cap_free_app.
  - destruct (_ =? 8); [by apply set_add_same|done].
Qed.

Lemma collect_seeds_same iter1 iter2 words :
  set_iter_spec iter1 → set_iter_spec iter2 → Forall cap_free words →
  same_members (collect_seeds iter1 words) (collect_seeds iter2 words).
Proof.
  intros H1 H2 Hfree. rewrite Forall_forall in Hfree.
  assert (∀ w, w ∈ take 50 words → cap_free w) as Hfree50.
  { intros w Hw. by apply Hfree, (subseteq_take 50). }
  unfold collect_seeds.
  apply (fold_left_rel same_members).
  { intros a a' w _ Ha. apply (fold_left_rel same_members); [|done].
    intros b b' num _ Hb x. unfold num_step. destruct (_ <=? 8); [|done].
    by do 4 apply set_add_same. }
  apply (fold_left_rel same_members).
  { intros a a' w1 Hw1 Ha. apply (fold_left_rel same_members); [|done].
    intros b b' w2 Hw2 Hb. apply pair_step_same; auto. }
  apply (fold_left_rel same_members).
  { intros a a' p _ Ha. unfold pattern_step.
    destruct (_ && _); [by apply set_add_same|done]. }
  apply (fold_left_rel same_members); [|done].
  intros a a' w Hw Ha. apply word_step_same; auto.
Qed.

(** ** The written text reads back as the lines *)

Lemma str_split_no_sep sep x : char_in sep x = false → str_split sep x = [x].
Proof.
  induction x as [|a x IH]; simpl; [done|].
  intros [Ha Hx]%orb_false_iff. by rewrite Ha, IH.
Qed.

Lemma str_split_app sep x rest :
  char_in sep x = false →
  str_split sep (x +:+ String sep rest) = x :: str_split sep rest.
Proof.
  induction x as [|a x IH]; intros Hx.
  - change (str_split sep (String sep rest) = "" :: str_split sep rest).
    simpl. by rewrite Ascii.eqb_refl.
  - simpl in Hx. apply orb_false_iff in Hx as [Ha Hx].
    rewrite str_app_cons. simpl. by rewrite Ha, IH.
Qed.

Lemma str_split_concat sep (l : list string) :
  l ≠ [] → Forall (λ s, char_in sep s = false) l →
  str_split sep (String.concat (String sep "") l) = l.
Proof.
  induction l as [|x l IH]; [done|]. intros _ Hl.
  apply Forall_cons in Hl as [Hx Hl]. destruct l as [|y l].
  - by apply str_split_no_sep.
  - change (String.concat (String sep "") (x :: y :: l))
      with (x +:+ String sep (String.concat (String sep "") (y :: l))).
    rewrite str_split_app by done. f_equal. by apply IH.
Qed.

Lemma valid_seed_no_newline s :
  valid_seed s = true → char_in newline_char s = false.
Proof.
  intros [_ Hs]%valid_seed_iff. destruct (char_in newline_char s) eqn:E; [|done].
  by pose proof (str_forall_char_in _ _ _ Hs E).
Qed.

Lemma written_text_lines iter words :
  set_iter_spec iter →
  str_split newline_char (text (generate_word_combinations iter words))
  = lines (generate_word_combinations iter words).
Proof.
  intros Hiter.
  change (text (generate_word_combinations iter words))
    with (String.concat newline (lines (generate_word_combinations iter words))).
  apply str_split_concat.
  - assert ("69696969" ∈ lines (generate_word_combinations iter words)) as Hin.
    { apply lines_elem. split; [done|]. apply Hiter.
      apply collect_seeds_patterns; [by_compute|done]. }
    intros E. rewrite E in Hin. by apply elem_of_nil in Hin.
  - apply Forall_forall. intros s [Hs _]%lines_elem.
    by apply valid_seed_no_newline.
Qed.

Lemma filter_all {A} (P : A → Prop) `{∀ x, Decision (P x)} (l : list A) :
  Forall P l → filter P l = l.
Proof.
  induction 1 as [|x l Hx _ IH]; [done|].
  rewrite filter_cons_True by done. by rewrite IH.
Qed.

Lemma count_lines iter words :
  count (generate_word_combinations iter words)
  = length (lines (generate_word_combinations iter words)).
Proof. reflexivity. Qed.

Lemma collect_seeds_nil iter : collect_seeds iter [] = reverse number_patterns.
Proof. reflexivity. Qed.

(** ** The model on concrete inputs *)

Example normalize_example : normalize "gam-e0 x" = "GAMEX".
Proof. reflexivity. Qed.

Example leet_example :
  generate_leet_variations "GAMEBOT"
  = ["GAMEBOT"; "G4MEBOT"; "GAM3BOT"; "GAMEBO7"; "6AMEBOT"; "GAME8OT"].
Proof. reflexivity. Qed.

(** "GAME" stays below the cap; "WIN" has 210 distinct candidates, of which
    the truncation keeps 200. *)
Example candidates_GAME :
  length (padded_candidates "GAME") = 142.
Proof. vm_compute. reflexivity. Qed.

Example candidates_WIN :
  length (remove_dups (padded_candidates "WIN")) = 210
  ∧ length (generate_padded_combinations iter_recent "WIN" DEFAULT_MAX_RESULTS) = 200.
Proof. split; vm_compute; reflexivity. Qed.

(** * The specified properties *)




(** C3, as stated, fails: two runs on the one-word list ["WIN"] that
    enumerate their sets in different orders keep different candidates at
    the 200-item truncation and write different files (471 lines against
    466). *)
Lemma C3_counterexample :
  set_iter_spec iter_recent ∧ set_iter_spec iter_oldest
  ∧ count (generate_word_combinations iter_recent ["WIN"]) = 471
  ∧ count (generate_word_combinations iter_oldest ["WIN"]) = 466
  ∧ lines (generate_word_combinations iter_recent ["WIN"])
    ≠ lines (generate_word_combinations iter_oldest ["WIN"])
  ∧ text (generate_word_combinations iter_recent ["WIN"])
    ≠ text (generate_word_combinations iter_oldest ["WIN"]).
Proof.
  assert (count (generate_word_combinations iter_recent ["WIN"]) = 471) as H1.
  { vm_compute. reflexivity. }
  assert (count (generate_word_combinations iter_oldest ["WIN"]) = 466) as H2.
  { vm_compute. reflexivity. }
  assert (lines (generate_word_combinations iter_recent ["WIN"])
          ≠ lines (generate_word_combinations iter_oldest ["WIN"])) as Hne.
  { intros E. rewrite count_lines in H1, H2. rewrite E, H2 in H1. lia. }
  split_and!; [apply iter_recent_spec|apply iter_oldest_spec|done..|].
  intros E. apply Hne.
  rewrite <- (written_text_lines iter_recent) by apply iter_recent_spec.
  rewrite <- (written_text_lines iter_oldest) by apply iter_oldest_spec.
  exact (f_equal (str_split newline_char) E).
Qed.

(** C3, amended: when the normalization of every word of the list is empty
    or has at least 4 characters, the 200-item truncation is never reached
    and two runs produce the same output (lines, text and count), whatever
    the orders in which the two runs enumerate their sets. *)
Theorem C3_same_output_below_cap iter1 iter2 words :
  set_iter_spec iter1 → set_iter_spec iter2 → Forall cap_free words →
  generate_word_combinations iter1 words = generate_word_combinations iter2 words.
Proof.
  intros H1 H2 Hfree. apply output_same; [done..|].
  by apply collect_seeds_same.
Qed.

Lemma C3_witness :
  Forall cap_free ["GAME"; "Royal-Ace"; "--"; "DISCHARGE"]
  ∧ generate_word_combinations iter_recent ["GAME"; "Royal-Ace"; "--"; "DISCHARGE"]
    = generate_word_combinations iter_oldest ["GAME"; "Royal-Ace"; "--"; "DISCHARGE"].
Proof.
  assert (Forall cap_free ["GAME"; "Royal-Ace"; "--"; "DISCHARGE"]) as Hfree.
  { repeat constructor; unfold cap_free; vm_compute; lia. }
  split; [exact Hfree|].
  exact (C3_same_output_below_cap iter_recent iter_oldest _
           iter_recent_spec iter_oldest_spec Hfree).
Defined.

(** C4: whatever the word list (also one with no usable word), each of the
    48 patterns of [number_patterns], all of which pass the length and
    alphabet test, is written: it is among the sorted seeds and it is a
    line of the text written to the file; in particular "69696969" is a
    line of the text written for [COOL_WORDS]. *)
Theorem C4_patterns_written iter words :
  set_iter_spec iter →
  length number_patterns = 48
  ∧ Forall (λ p, valid_seed p = true) number_patterns
  ∧ Forall (λ p, p ∈ lines (generate_word_combinations iter words)) number_patterns
  ∧ "69696969" ∈ lines (generate_word_combinations iter COOL_WORDS)
  ∧ Forall (λ p, p ∈ str_split newline_char
                       (text (generate_word_combinations iter words)))
      number_patterns
  ∧ "69696969" ∈ str_split newline_char
                   (text (generate_word_combinations iter COOL_WORDS)).
Proof.
  intros Hiter.
  assert (∀ ws p, p ∈ number_patterns →
            p ∈ lines (generate_word_combinations iter ws)) as Hall.
  { intros ws p Hp.
    pose proof (proj1 (Forall_forall _ _) number_patterns_valid p Hp) as Hv.
    apply lines_elem. split; [done|]. apply Hiter.
    by apply collect_seeds_patterns. }
  rewrite !written_text_lines by done.
  split_and!; [done|apply number_patterns_valid| | | |].
  - apply Forall_forall, Hall.
  - apply Hall. by_compute.
  - apply Forall_forall, Hall.
  - apply Hall. by_compute.
Qed.

Lemma C4_witness :
  set_iter_spec iter_oldest
  ∧ length number_patterns = 48
  ∧ Forall (λ p, valid_seed p = true) number_patterns
  ∧ Forall (λ p, p ∈ lines (generate_word_combinations iter_oldest ["-"; "WIN"]))
      number_patterns
  ∧ "69696969" ∈ lines (generate_word_combinations iter_oldest COOL_WORDS)
  ∧ Forall (λ p, p ∈ str_split newline_char
                       (text (generate_word_combinations iter_oldest ["-"; "WIN"])))
      number_patterns
  ∧ "69696969" ∈ str_split newline_char
                   (text (generate_word_combinations iter_oldest COOL_WORDS)).
Proof.
  split; [apply iter_oldest_spec|].
  apply (C4_patterns_written iter_oldest ["-"; "WIN"]), iter_oldest_spec.
Defined.

(** C5: for the word "GAME" the set returned by
    [generate_padded_combinations] contains "GAME1111", "GAME9999" and
    "GAMEEEEE", whatever the order in which the set is enumerated at the
    200-item cap. *)
Theorem C5_GAME_candidates iter :
  set_iter_spec iter →
  "GAME1111" ∈ generate_padded_combinations iter "GAME" DEFAULT_MAX_RESULTS
  ∧ "GAME9999" ∈ generate_padded_combinations iter "GAME" DEFAULT_MAX_RESULTS
  ∧ "GAMEEEEE" ∈ generate_padded_combinations iter "GAME" DEFAULT_MAX_RESULTS.
Proof.
  intros Hiter.
  split_and!; (apply gpc_elem_below_cap; [done|vm_compute; lia|by_compute]).
Qed.

Lemma C5_witness :
  set_iter_spec iter_oldest
  ∧ "GAME1111" ∈ generate_padded_combinations iter_oldest "GAME" DEFAULT_MAX_RESULTS
  ∧ "GAME9999" ∈ generate_padded_combinations iter_oldest "GAME" DEFAULT_MAX_RESULTS
  ∧ "GAMEEEEE" ∈ generate_padded_combinations iter_oldest "GAME" DEFAULT_MAX_RESULTS.
Proof.
  split; [apply iter_oldest_spec|].
  apply (C5_GAME_candidates iter_oldest), iter_oldest_spec.
Defined.

(** C6: for a word whose normalization (uppercase, then keep the alphabet's
    characters) has exactly 8 characters, [generate_padded_combinations]
    returns the set holding that normalized word and nothing else. *)
Theorem C6_exact_length_singleton iter word max_results :
  String.length (normalize word) = 8 →
  generate_padded_combinations iter word max_results = set_add (normalize word) []
  ∧ ∀ s, s ∈ generate_padded_combinations iter word max_results
         ↔ s = normalize word.
Proof.
  intros Hlen. rewrite gpc_exact by done. split; [done|].
  intros s. apply list_elem_of_singleton.
Qed.

Lemma C6_witness :
  String.length (normalize "Royal-Ace") = 8
  ∧ generate_padded_combinations iter_recent "Royal-Ace" DEFAULT_MAX_RESULTS
    = set_add "ROYALACE" []
  ∧ ∀ s, s ∈ generate_padded_combinations iter_recent "Royal-Ace" DEFAULT_MAX_RESULTS
         ↔ s = "ROYALACE".
Proof.
  split; [reflexivity|].
  apply (C6_exact_length_singleton iter_recent "Royal-Ace" DEFAULT_MAX_RESULTS).
  reflexivity.
Defined.

(** C7: for a word whose normalization is empty or has more than 8
    characters, [generate_padded_combinations] returns the empty set. *)
Theorem C7_skipped_word_empty iter word max_results :
  String.length (normalize word) = 0 ∨ 8 < String.length (normalize word) →
  generate_padded_combinations iter word max_results = [].
Proof. apply gpc_skip. Qed.

Lemma C7_witness :
  (String.length (normalize "DISCHARGE") = 0
   ∨ 8 < String.length (normalize "DISCHARGE"))
  ∧ generate_padded_combinations iter_recent "DISCHARGE" DEFAULT_MAX_RESULTS = []
  ∧ generate_padded_combinations iter_recent "-- 0 --" DEFAULT_MAX_RESULTS = [].
Proof.
  split_and!.
  - right. vm_compute. lia.
  - apply (C7_skipped_word_empty iter_recent "DISCHARGE"). right. vm_compute. lia.
  - apply (C7_skipped_word_empty iter_recent "-- 0 --"). left. reflexivity.
Defined.

(** C8: for every word, the set returned by
    [generate_padded_combinations] with the default [max_results] has at
    most 200 members (it is built from as many distinct strings). *)
Theorem C8_at_most_200 iter word :
  set_iter_spec iter →
  NoDup (generate_padded_combinations iter word DEFAULT_MAX_RESULTS)
  ∧ length (generate_padded_combinations iter word DEFAULT_MAX_RESULTS) ≤ 200.
Proof.
  intros Hiter. destruct (gpc_cases word) as [H|[H|H]].
  - rewrite gpc_skip by done. split; [constructor|simpl; lia].
  - rewrite gpc_exact by done. split; [apply NoDup_singleton|simpl; lia].
  - rewrite gpc_short by done. split.
    + rewrite reverse_Permutation.
      eapply sublist_NoDup; [apply Hiter|apply sublist_take].
    + rewrite length_reverse, length_take. unfold DEFAULT_MAX_RESULTS. lia.
Qed.

Lemma C8_witness :
  set_iter_spec iter_recent
  ∧ NoDup (generate_padded_combinations iter_recent "WIN" DEFAULT_MAX_RESULTS)
  ∧ length (generate_padded_combinations iter_recent "WIN" DEFAULT_MAX_RESULTS) ≤ 200.
Proof.
  split; [apply iter_recent_spec|].
  apply (C8_at_most_200 iter_recent "WIN"), iter_recent_spec.
Defined.

(** C9: for every word (lowercase and foreign characters included), every
    string of the set returned by [generate_padded_combinations] has
    exactly 8 characters, all in the alphabet; so the validity filter of
    [generate_word_combinations] keeps every one of them. *)
Theorem C9_padded_already_valid iter word max_results :
  set_iter_spec iter →
  Forall (λ s, String.length s = 8 ∧ str_forall valid_char s = true)
    (generate_padded_combinations iter word max_results)
  ∧ filter (λ s, valid_seed s = true)
      (generate_padded_combinations iter word max_results)
    = generate_padded_combinations iter word max_results.
Proof.
  intros Hiter.
  assert (Forall (λ s, valid_seed s = true)
            (generate_padded_combinations iter word max_results)) as Hv.
  { apply Forall_forall. intros s. by apply gpc_valid. }
  split; [|by apply filter_all].
  eapply Forall_impl; [exact Hv|]. intros s. apply valid_seed_iff.
Qed.

Lemma C9_witness :
  set_iter_spec iter_recent
  ∧ Forall (λ s, String.length s = 8 ∧ str_forall valid_char s = true)
      (generate_padded_combinations iter_recent "g@me" DEFAULT_MAX_RESULTS)
  ∧ filter (λ s, valid_seed s = true)
      (generate_padded_combinations iter_recent "g@me" DEFAULT_MAX_RESULTS)
    = generate_padded_combinations iter_recent "g@me" DEFAULT_MAX_RESULTS.
Proof.
  split; [apply iter_recent_spec|].
  apply (C9_padded_already_valid iter_recent "g@me"), iter_recent_spec.
Defined.

(** C10: for the empty word list [generate_word_combinations] writes
    exactly the 48 patterns of [number_patterns], sorted, one per line (the
    text written is these 48 lines joined by newlines, 431 characters), and
    returns 48: the output is not empty although the word list is. *)
Theorem C10_empty_word_list iter :
  set_iter_spec iter →
  lines (generate_word_combinations iter []) = merge_sort String.le number_patterns
  ∧ lines (generate_word_combinations iter []) ≡ₚ number_patterns
  ∧ length (lines (generate_word_combinations iter [])) = 48
  ∧ count (generate_word_combinations iter []) = 48
  ∧ text (generate_word_combinations iter []) ≠ ""
  ∧ text (generate_word_combinations iter [])
    = String.concat newline (merge_sort String.le number_patterns)
  ∧ str_split newline_char (text (generate_word_combinations iter []))
    = merge_sort String.le number_patterns
  ∧ String.length (text (generate_word_combinations iter [])) = 431.
Proof.
  intros Hiter.
  assert (generate_word_combinations iter []
          = generate_word_combinations iter_recent []) as ->.
  { apply output_same; [done|apply iter_recent_spec|done]. }
  split_and!; [by vm_compute| |by vm_compute..].
  replace (lines (generate_word_combinations iter_recent []))
    with (merge_sort String.le number_patterns) by (by vm_compute).
  apply merge_sort_Permutation.
Qed.

Lemma C10_witness :
  set_iter_spec iter_oldest
  ∧ lines (generate_word_combinations iter_oldest [])
    = merge_sort String.le number_patterns
  ∧ lines (generate_word_combinations iter_oldest []) ≡ₚ number_patterns
  ∧ length (lines (generate_word_combinations iter_oldest [])) = 48
  ∧ count (generate_word_combinations iter_oldest []) = 48
  ∧ text (generate_word_combinations iter_oldest []) ≠ ""
  ∧ text (generate_word_combinations iter_oldest [])
    = String.concat newline (merge_sort String.le number_patterns)
  ∧ str_split newline_char (text (generate_word_combinations iter_oldest []))
    = merge_sort String.le number_patterns
  ∧ String.length (text (generate_word_combinations iter_oldest [])) = 431.
Proof.
  split; [apply iter_oldest_spec|].
  apply (C10_empty_word_list iter_oldest), iter_oldest_spec.
Defined.

(** * Further properties of the generator *)

(** ** Where the members of the accumulated set come from *)

Lemma fold_left_elem {B} (f : pyset → B → pyset) (Q : B → string → Prop)
    (l : list B) (a : pyset) x :
  (∀ a b, x ∈ f a b ↔ x ∈ a ∨ Q b x) →
  x ∈ fold_left f l a ↔ x ∈ a ∨ ∃ b, b ∈ l ∧ Q b x.
Proof.
  intros Hf. revert a. induction l as [|b l IH]; intros a; simpl.
  - split; [by left|]. intros [?|(b & Hb & _)]; [done|].
    by apply elem_of_nil in Hb.
  - rewrite IH, Hf. split.
    + intros [[?|?]|(b' & Hb' & HQ)]; [by left|right..].
      * exists b. split; [by left|done].
      * exists b'. split; [by right|done].
    + intros [?|(b' & Hb' & HQ)]; [by left; left|].
      apply elem_of_cons in Hb' as [->|Hb']; [left; by right|].
      right. by exists b'.
Qed.

Lemma leet_variations_head word :
  ∃ rest, generate_leet_variations word = word :: rest.
Proof.
  unfold generate_leet_variations.
  apply (fold_left_invariant (λ vars, ∃ rest, vars = word :: rest));
    [|by exists []].
  intros vars [c d] _ [rest ->]. unfold leet_step.
  destruct (_ && _); [|by exists rest]. by exists (rest ++ [str_replace c d word]).
Qed.

Lemma leet_variations_self word : word ∈ generate_leet_variations word.
Proof. destruct (leet_variations_head word) as [rest ->]. by left. Qed.

Lemma word_step_elem iter a word x :
  set_iter_spec iter →
  x ∈ word_step iter a word ↔ x ∈ a ∨ from_word iter word x.
Proof.
  intros Hiter. unfold word_step, from_word.
  destruct (8 <? _) eqn:E.
  { apply Nat.ltb_lt in E. split; [by left|]. intros [?|[? _]]; [done|lia]. }
  apply Nat.ltb_ge in E.
  rewrite (fold_left_elem _
    (λ v x, x ∈ generate_padded_combinations iter v DEFAULT_MAX_RESULTS)).
  2:{ intros a' v. rewrite set_update_elem by done. tauto. }
  rewrite set_update_elem by done. split.
  - intros [[?|?]|(v & Hv & Hx)]; [right|by left|right].
    + split; [done|]. exists word. split; [apply leet_variations_self|done].
    + split; [done|]. by exists v.
  - intros [?|[_ (v & Hv & Hx)]]; [left; by right|]. right. by exists v.
Qed.

Lemma pattern_step_elem a p x :
  x ∈ pattern_step a p ↔ x ∈ a ∨ (valid_seed p = true ∧ x = p).
Proof.
  unfold pattern_step. fold (valid_seed p). destruct (valid_seed p).
  - unfold set_add. rewrite elem_of_cons. tauto.
  - split; [by left|]. by intros [?|[? _]].
Qed.

Lemma pair_step_elem iter word1 a word2 x :
  set_iter_spec iter →
  x ∈ pair_step iter word1 a word2 ↔ x ∈ a ∨ from_pair iter word1 word2 x.
Proof.
  intros Hiter. unfold pair_step, from_pair. rewrite str_length_app.
  destruct (_ <=? 8) eqn:E1.
  2:{ apply Nat.leb_gt in E1. split; [by left|].
      intros [?|[[? _]|[? _]]]; [done|lia..]. }
  destruct (_ <? 8) eqn:E2.
  { apply Nat.ltb_lt in E2. rewrite set_update_elem by done. split.
    - intros [?|?]; [right; by left|by left].
    - intros [?|[[_ ?]|[? _]]]; [by right|by left|lia]. }
  apply Nat.ltb_ge in E2. destruct (_ =? 8) eqn:E3.
  - apply Nat.eqb_eq in E3. unfold set_add. rewrite elem_of_cons. split.
    + intros [->|?]; [right; by right|by left].
    + intros [?|[[? _]|[_ ->]]]; [by right|lia|by left].
  - apply Nat.eqb_neq in E3. apply Nat.leb_le in E1. lia.
Qed.

Lemma num_step_elem word a num x :
  x ∈ num_step word a num ↔ x ∈ a ∨ from_num word num x.
Proof.
  unfold num_step, from_num, num_arrangements, set_add.
  destruct (_ <=? 8) eqn:E.
  - apply Nat.leb_le in E. rewrite !elem_of_cons, elem_of_nil. tauto.
  - apply Nat.leb_gt in E. split; [by left|]. intros [?|[? _]]; [done|lia].
Qed.

Lemma collect_seeds_elem iter words x :
  set_iter_spec iter →
  x ∈ collect_seeds iter words ↔
    (∃ w, w ∈ words ∧ from_word iter w x)
    ∨ (∃ p, p ∈ number_patterns ∧ valid_seed p = true ∧ x = p)
    ∨ (∃ w1, w1 ∈ take 50 words
             ∧ ∃ w2, w2 ∈ take 50 words ∧ from_pair iter w1 w2 x)
    ∨ (∃ w, w ∈ words ∧ ∃ num, num ∈ combo_nums ∧ from_num w num x).
Proof.
  intros Hiter. unfold collect_seeds.
  rewrite (fold_left_elem _ (λ w x, ∃ num, num ∈ combo_nums ∧ from_num w num x)).
  2:{ intros a w. apply fold_left_elem. intros a' num. apply num_step_elem. }
  rewrite (fold_left_elem _
    (λ w1 x, ∃ w2, w2 ∈ take 50 words ∧ from_pair iter w1 w2 x)).
  2:{ intros a w1. apply fold_left_elem. intros a' w2.
      by apply pair_step_elem. }
  rewrite (fold_left_elem _ (λ p x, valid_seed p = true ∧ x = p)).
  2:{ intros a p. apply pattern_step_elem. }
  rewrite (fold_left_elem _ (from_word iter)).
  2:{ intros a w. by apply word_step_elem. }
  rewrite elem_of_nil. tauto.
Qed.

Lemma lines_seed_source iter words s :
  set_iter_spec iter →
  s ∈ lines (generate_word_combinations iter words)
  ↔ valid_seed s = true ∧ seed_source iter words s.
Proof.
  intros Hiter. rewrite lines_elem, (proj2 (Hiter _) s).
  rewrite collect_seeds_elem by done. unfold seed_source. split.
  - intros [Hv H]. split; [done|].
    destruct H as [?|[(p & Hp & _ & ->)|[(w1 & ? & w2 & ? & ?)|(w & ? & n & ? & ?)]]];
      [by left|right; by left|right; right; left|right; right; right].
    + by exists w1, w2.
    + by exists w, n.
  - intros [Hv H]. split; [done|].
    destruct H as [?|[?|[(w1 & w2 & ? & ? & ?)|(w & n & ? & ? & ?)]]];
      [by left|right; left|right; right; left|right; right; right].
    + by exists s.
    + exists w1. split; [done|]. by exists w2.
    + exists w. split; [done|]. by exists n.
Qed.

Lemma seed_source_mono iter (ws ws' : list string) s :
  ws ⊆ ws' → take 50 ws ⊆ take 50 ws' →
  seed_source iter ws s → seed_source iter ws' s.
Proof.
  intros Hall H50 [(w & Hw & H)|[H|[(w1 & w2 & H1 & H2 & H)|(w & n & Hw & Hn & H)]]].
  - left. exists w. split; [by apply Hall|done].
  - right. by left.
  - right. right. left. exists w1, w2. split_and!; [by apply H50..|done].
  - right. right. right. exists w, n. split_and!; [by apply Hall|done..].
Qed.

Lemma output_eta iter words :
  generate_word_combinations iter words
  = Output (lines (generate_word_combinations iter words))
      (String.concat newline (lines (generate_word_combinations iter words)))
      (length (lines (generate_word_combinations iter words))).
Proof. reflexivity. Qed.

Lemma same_sources_same_output iter (ws ws' : list string) :
  set_iter_spec iter →
  (∀ s, seed_source iter ws s ↔ seed_source iter ws' s) →
  generate_word_combinations iter ws = generate_word_combinations iter ws'.
Proof.
  intros Hiter Hsame.
  assert (lines (generate_word_combinations iter ws)
          = lines (generate_word_combinations iter ws')) as Hl.
  { apply (StronglySorted_unique String.le); [apply lines_sorted..|].
    apply NoDup_Permutation; [by apply lines_NoDup..|].
    intros s. rewrite !lines_seed_source by done. by rewrite (Hsame s). }
  rewrite (output_eta iter ws), (output_eta iter ws'). by rewrite Hl.
Qed.

Lemma take_subseteq_app (n : nat) (l k : list string) : take n l ⊆ take n (l ++ k).
Proof. intros x Hx. rewrite take_app, elem_of_app. by left. Qed.

Lemma overlong_no_source iter (words : list string) s :
  Forall (λ w, 8 < String.length w) words →
  seed_source iter words s → s ∈ number_patterns.
Proof.
  intros Hlong. rewrite Forall_forall in Hlong.
  intros [(w & Hw & Hlen & _)|[H|[(w1 & w2 & H1 & _ & H)|(w & n & Hw & _ & Hlen & _)]]].
  - apply Hlong in Hw. lia.
  - done.
  - apply (subseteq_take 50), Hlong in H1. destruct H as [[? _]|[? _]]; lia.
  - apply Hlong in Hw. lia.
Qed.

Lemma str_prefix_all n s : String.length s ≤ n → str_prefix n s = s.
Proof.
  unfold str_prefix. revert n. induction s as [|a s IH]; intros n Hn.
  - by destruct n.
  - destruct n as [|n]; simpl in *; [lia|]. rewrite IH; [done|lia].
Qed.

Lemma combo_nums_good : Forall good combo_nums.
Proof. by repeat constructor. Qed.

Lemma num_arrangements_eq word num :
  String.length word + String.length num ≤ 8 →
  num_arrangements word num
  = [(word +:+ num) +:+ str_repeat "1" (8 - String.length word - String.length num);
     (num +:+ word) +:+ str_repeat "1" (8 - String.length word - String.length num);
     (word +:+ num) +:+ str_repeat "X" (8 - String.length word - String.length num);
     (num +:+ word) +:+ str_repeat "Z" (8 - String.length word - String.length num)].
Proof.
  intros Hlen. unfold num_arrangements.
  rewrite !str_prefix_all; [done|..];
    rewrite !str_length_app, str_length_repeat; simpl; lia.
Qed.

Lemma num_arrangements_valid word num :
  good word → good num → String.length word + String.length num ≤ 8 →
  Forall (λ s, valid_seed s = true) (num_arrangements word num).
Proof.
  intros Hw Hn Hlen. rewrite num_arrangements_eq by done.
  repeat constructor;
    (apply filled_valid; [by apply good_app|done|done|rewrite str_length_app; lia]).
Qed.

(** ** More on the padding phase *)

Lemma str_app_assoc s t u : (s +:+ t) +:+ u = s +:+ (t +:+ u).
Proof.
  induction s as [|a s IH]; [done|]. rewrite !str_app_cons. by rewrite IH.
Qed.

Lemma str_app_nil_r s : s +:+ "" = s.
Proof. induction s as [|a s IH]; [done|]. rewrite str_app_cons. by rewrite IH. Qed.

Lemma pad_at_end_embeds word num results :
  Forall (λ s, ∃ pre post, s = (pre +:+ word) +:+ post) results →
  Forall (λ s, ∃ pre post, s = (pre +:+ word) +:+ post)
    (pad_at_end word num results).
Proof.
  intros Hr. unfold pad_at_end. destruct (_ <=? 8); [|done].
  destruct (_ =? 0).
  - constructor; [|done]. by exists "", num.
  - destruct (0 <? _); [|done]. apply fold_left_invariant; [|done].
    intros a filler _ Ha. constructor; [|done].
    exists "", (num +:+ str_repeat filler (8 - String.length word - String.length num)).
    by rewrite str_app_assoc.
Qed.

Lemma pad_at_start_embeds word num results :
  Forall (λ s, ∃ pre post, s = (pre +:+ word) +:+ post) results →
  Forall (λ s, ∃ pre post, s = (pre +:+ word) +:+ post)
    (pad_at_start word num results).
Proof.
  intros Hr. unfold pad_at_start. destruct (_ <=? 8); [|done].
  destruct (_ =? 0).
  - constructor; [|done]. exists num, "". by rewrite str_app_nil_r.
  - destruct (0 <? _); [|done]. apply fold_left_invariant; [|done].
    intros a filler _ Ha. constructor; [|done]. by eexists num, _.
Qed.

Lemma padded_candidates_embed word :
  Forall (λ s, ∃ pre post, s = (pre +:+ word) +:+ post) (padded_candidates word).
Proof.
  unfold padded_candidates. apply fold_left_invariant.
  { intros a c _ Ha. constructor; [|done]. by eexists "", _. }
  constructor.
  { eexists _, "". by rewrite str_app_nil_r. }
  constructor; [by eexists "", _|].
  apply fold_left_invariant; [|constructor].
  intros a num _ Ha. unfold pad_num. destruct (_ <=? _); [|done].
  by apply pad_at_start_embeds, pad_at_end_embeds.
Qed.

Lemma valid_upper_fixed a : valid_char a = true → upper_char a = a.
Proof.
  intros Ha.
  assert (str_forall (λ c, Ascii.eqb (upper_char c) c) VALID_CHARS = true) as Hall
    by reflexivity.
  by apply Ascii.eqb_eq, (str_forall_char_in _ _ _ Hall).
Qed.

Lemma normalize_good s : good s → normalize s = s.
Proof.
  unfold good, normalize, upper. induction s as [|a s IH]; simpl; [done|].
  intros [Ha Hs]%andb_true_iff. rewrite (valid_upper_fixed a Ha), Ha.
  by rewrite IH.
Qed.

Lemma normalize_idempotent word : normalize (normalize word) = normalize word.
Proof. apply normalize_good, good_normalize. Qed.

Lemma upper_char_idempotent a : upper_char (upper_char a) = upper_char a.
Proof. by destruct a as [[] [] [] [] [] [] [] []]. Qed.

Lemma normalize_upper word : normalize (upper word) = normalize word.
Proof.
  unfold normalize, upper. f_equal.
  induction word as [|a word IH]; simpl; [done|].
  by rewrite upper_char_idempotent, IH.
Qed.

Lemma gpc_normalize_eq iter w w' max_results :
  normalize w = normalize w' →
  generate_padded_combinations iter w max_results
  = generate_padded_combinations iter w' max_results.
Proof. intros E. unfold generate_padded_combinations. by rewrite E. Qed.

(** On the caps that are not negative the two versions agree. *)
Lemma gpc_int_nonneg iter word (max_results : Z) :
  (0 ≤ max_results)%Z →
  generate_padded_combinations_int iter word max_results
  = generate_padded_combinations iter word (Z.to_nat max_results).
Proof.
  intros Hk. unfold generate_padded_combinations_int,
    generate_padded_combinations, py_slice_to.
  destruct (max_results <? 0)%Z eqn:E; [apply Z.ltb_lt in E; lia|done].
Qed.

(** A negative cap removes from the end of the enumeration: for "WIN",
    with 210 distinct candidates, a cap of -1 keeps 209. *)
Example gpc_int_negative_cap :
  length (generate_padded_combinations_int iter_recent "WIN" (-1)) = 209
  ∧ length (generate_padded_combinations_int iter_recent "WIN" 200) = 200.
Proof. split; vm_compute; reflexivity. Qed.

Lemma candidates_count_bound L : candidates_count L ≤ 214.
Proof.
  destruct (decide (4 ≤ L)) as [H4|H4].
  - pose proof (candidates_count_below_cap L H4). unfold DEFAULT_MAX_RESULTS in *. lia.
  - assert (L = 0 ∨ L = 1 ∨ L = 2 ∨ L = 3) as H by lia.
    destruct H as [->|[->|[->| ->]]]; vm_compute; lia.
Qed.

Lemma iter_length_le iter (h : pyset) :
  set_iter_spec iter → length (iter h) ≤ length h.
Proof.
  intros Hiter. destruct (Hiter h) as [Hnd Hel]. apply NoDup_incl_length.
  - by apply NoDup_ListNoDup.
  - intros x Hx. apply list_elem_of_In, Hel, list_elem_of_In, Hx.
Qed.

Lemma fold_left_adds {A B} (P : A → Prop) (f : A → B → A) (l : list B) a b :
  (∀ a b', P a → P (f a b')) → b ∈ l → (∀ a, P (f a b)) → P (fold_left f l a).
Proof.
  intros Hmono Hb Hadd. revert a.
  induction l as [|b' l IH]; intros a; [by apply elem_of_nil in Hb|].
  simpl. apply elem_of_cons in Hb as [->|Hb]; [|by apply IH].
  apply fold_left_invariant; [|apply Hadd]. intros a' b'' _. apply Hmono.
Qed.

Lemma fold_add_mono {B} (g : B → string) (l : list B) (a : pyset) x :
  x ∈ a → x ∈ fold_left (λ r y, set_add (g y) r) l a.
Proof. intros Hx. rewrite fold_add_map, elem_of_app. by right. Qed.

Lemma fold_add_elem {B} (g : B → string) (l : list B) (a : pyset) y :
  y ∈ l → g y ∈ fold_left (λ r y, set_add (g y) r) l a.
Proof.
  intros Hy. rewrite fold_add_map, elem_of_app, elem_of_reverse. left.
  by apply list_elem_of_fmap_2.
Qed.

Lemma pad_at_end_mono word num a x : x ∈ a → x ∈ pad_at_end word num a.
Proof.
  intros Hx. unfold pad_at_end. destruct (_ <=? 8); [|done].
  destruct (_ =? 0); [by right|]. destruct (0 <? _); [|done].
  by apply fold_add_mono.
Qed.

Lemma pad_at_start_mono word num a x : x ∈ a → x ∈ pad_at_start word num a.
Proof.
  intros Hx. unfold pad_at_start. destruct (_ <=? 8); [|done].
  destruct (_ =? 0); [by right|]. destruct (0 <? _); [|done].
  by apply fold_add_mono.
Qed.

Lemma pad_at_end_adds word num a filler :
  String.length word + String.length num ≤ 8 → filler ∈ fillers →
  (word +:+ num) +:+ str_repeat filler (8 - String.length word - String.length num)
  ∈ pad_at_end word num a.
Proof.
  intros Hlen Hf. unfold pad_at_end. rewrite str_length_app.
  destruct (_ <=? 8) eqn:E; [|apply Nat.leb_gt in E; lia].
  destruct (_ =? 0) eqn:E0.
  - apply Nat.eqb_eq in E0. rewrite E0. simpl. rewrite str_app_nil_r. by left.
  - apply Nat.eqb_neq in E0.
    destruct (0 <? _) eqn:E1; [|apply Nat.ltb_ge in E1; lia].
    by apply (fold_add_elem (λ f, (word +:+ num) +:+ str_repeat f _)).
Qed.

Lemma pad_at_start_adds word num a filler :
  String.length word + String.length num ≤ 8 → filler ∈ fillers →
  (num +:+ word) +:+ str_repeat filler (8 - String.length word - String.length num)
  ∈ pad_at_start word num a.
Proof.
  intros Hlen Hf. unfold pad_at_start. rewrite str_length_app.
  replace (8 - String.length word - String.length num)
    with (8 - String.length num - String.length word) by lia.
  destruct (_ <=? 8) eqn:E; [|apply Nat.leb_gt in E; lia].
  destruct (_ =? 0) eqn:E0.
  - apply Nat.eqb_eq in E0. rewrite E0. simpl. rewrite str_app_nil_r. by left.
  - apply Nat.eqb_neq in E0.
    destruct (0 <? _) eqn:E1; [|apply Nat.ltb_ge in E1; lia].
    by apply (fold_add_elem (λ f, (num +:+ word) +:+ str_repeat f _)).
Qed.

Lemma pad_num_mono word needed a num x : x ∈ a → x ∈ pad_num word needed a num.
Proof.
  intros Hx. unfold pad_num. destruct (_ <=? _); [|done].
  by apply pad_at_start_mono, pad_at_end_mono.
Qed.

Lemma padded_candidates_numbers word num filler :
  num ∈ POPULAR_NUMS → filler ∈ fillers →
  String.length word + String.length num ≤ 8 →
  (word +:+ num) +:+ str_repeat filler (8 - String.length word - String.length num)
    ∈ padded_candidates word
  ∧ (num +:+ word) +:+ str_repeat filler (8 - String.length word - String.length num)
    ∈ padded_candidates word.
Proof.
  intros Hnum Hf Hlen. unfold padded_candidates.
  split; apply fold_add_mono; do 2 apply set_add_mono;
    (apply (fold_left_adds (λ a, _ ∈ a) _ _ _ num);
     [intros a b'; apply pad_num_mono|done|]);
    intros a; unfold pad_num;
    (destruct (_ <=? _) eqn:E; [|apply Nat.leb_gt in E; lia]).
  - by apply pad_at_start_mono, pad_at_end_adds.
  - by apply pad_at_start_adds.
Qed.

Lemma combo_nums_popular : combo_nums ⊆ POPULAR_NUMS.
Proof. by_compute. Qed.

(** ** Leet variations *)

Lemma str_length_map f s : String.length (str_map f s) = String.length s.
Proof. induction s as [|a s IH]; simpl; [done|]. by rewrite IH. Qed.

Lemma str_forall_replace c d s :
  valid_char c = true → valid_char d = true →
  str_forall valid_char (str_replace c d s) = str_forall valid_char s.
Proof.
  intros Hc Hd. unfold str_replace.
  induction s as [|a s IH]; simpl; [done|]. rewrite IH.
  destruct (Ascii.eqb a c) eqn:E; [|done].
  apply Ascii.eqb_eq in E as ->. by rewrite Hc, Hd.
Qed.

Lemma char_in_replace z c d s :
  Ascii.eqb z c = false → Ascii.eqb z d = false →
  char_in z (str_replace c d s) = char_in z s.
Proof.
  intros Hc Hd. unfold str_replace.
  induction s as [|a s IH]; simpl; [done|]. rewrite IH.
  destruct (Ascii.eqb a c) eqn:E; [|done].
  apply Ascii.eqb_eq in E as ->. by rewrite Hc, Hd.
Qed.

Lemma leet_map_entries :
  forallb (λ entry, implb (char_in entry.2 VALID_CHARS)
                      (valid_char entry.1 && valid_char entry.2
                       && negb (Ascii.eqb "0" entry.1)
                       && negb (Ascii.eqb "0" entry.2)))
    leet_map = true.
Proof. reflexivity. Qed.

Lemma leet_fold_length word m vars :
  length (fold_left (leet_step word) m vars)
  = length vars
    + length (List.filter (λ e, char_in e.1 word && char_in e.2 VALID_CHARS) m).
Proof.
  revert vars. induction m as [|[c d] m IH]; intros vars; [simpl; lia|].
  cbn [fold_left List.filter]. rewrite IH. unfold leet_step. cbn [fst snd].
  destruct (char_in c word && char_in d VALID_CHARS); [|done].
  rewrite length_app. simpl. lia.
Qed.

Lemma filter_pairs_length {A B} (f : A → bool) (g : A * B → bool) m :
  length (List.filter (λ e, f e.1 && g e) m)
  = length (List.filter f (fst <$> List.filter g m)).
Proof.
  induction m as [|e m IH]; [done|]. cbn [List.filter].
  destruct (g e), (f e.1) eqn:Ef; cbn [andb fmap list_fmap List.filter];
    rewrite ?Ef; simpl; by rewrite IH.
Qed.

(** ** The written file *)

Lemma concat_length (l : list string) :
  l ≠ [] → Forall (λ s, String.length s = 8) l →
  String.length (String.concat newline l) + 1 = 9 * length l.
Proof.
  induction l as [|x l IH]; [done|]. intros _ Hl.
  apply Forall_cons in Hl as [Hx Hl]. destruct l as [|y l].
  - simpl. lia.
  - change (String.concat newline (x :: y :: l))
      with (x +:+ newline +:+ String.concat newline (y :: l)).
    rewrite !str_length_app, Hx. change (String.length newline) with 1.
    specialize (IH ltac:(done) Hl). simpl length in *. lia.
Qed.

Lemma patterns_in_lines iter words p :
  set_iter_spec iter → p ∈ number_patterns →
  p ∈ lines (generate_word_combinations iter words).
Proof.
  intros Hiter Hp.
  pose proof (proj1 (Forall_forall _ _) number_patterns_valid p Hp) as Hv.
  apply lines_elem. split; [done|]. apply Hiter.
  by apply collect_seeds_patterns.
Qed.

Lemma lines_nonempty iter words :
  set_iter_spec iter → lines (generate_word_combinations iter words) ≠ [].
Proof.
  intros Hiter E.
  assert ("69696969" ∈ lines (generate_word_combinations iter words)) as Hin
    by (apply patterns_in_lines; [done|by_compute]).
  rewrite E in Hin. by apply elem_of_nil in Hin.
Qed.

Lemma number_patterns_NoDup : NoDup number_patterns.
Proof. by_compute. Qed.

(** * Further properties, stated *)

(** X1: a string is among the lines written by [generate_word_combinations]
    exactly when it passes the length and alphabet test and one of the four
    phases adds it: a padded combination of a leet variation of a listed
    word of at most 8 characters, a number pattern, a pair of words among
    the first 50 (padded when shorter than 8, as it stands when exactly 8),
    or one of the four word-and-number arrangements. *)
Theorem X1_lines_characterized iter words s :
  set_iter_spec iter →
  s ∈ lines (generate_word_combinations iter words)
  ↔ valid_seed s = true ∧ seed_source iter words s.
Proof. apply lines_seed_source. Qed.

Lemma X1_witness :
  set_iter_spec iter_recent
  ∧ ("GAMEGAME" ∈ lines (generate_word_combinations iter_recent ["GAME"])
     ↔ valid_seed "GAMEGAME" = true ∧ seed_source iter_recent ["GAME"] "GAMEGAME").
Proof.
  split; [apply iter_recent_spec|].
  apply (X1_lines_characterized iter_recent ["GAME"] "GAMEGAME"), iter_recent_spec.
Defined.

(** X2: appending words to the word list never removes a line from the
    output. *)
Theorem X2_append_keeps_lines iter words more :
  set_iter_spec iter →
  lines (generate_word_combinations iter words)
  ⊆ lines (generate_word_combinations iter (words ++ more)).
Proof.
  intros Hiter s. rewrite !lines_seed_source by done.
  intros [Hv H]. split; [done|]. eapply seed_source_mono; [| |exact H].
  - intros x Hx. rewrite elem_of_app. by left.
  - apply take_subseteq_app.
Qed.

Lemma X2_witness :
  set_iter_spec iter_recent
  ∧ lines (generate_word_combinations iter_recent ["GAME"])
    ⊆ lines (generate_word_combinations iter_recent (["GAME"] ++ ["PLAY"])).
Proof.
  split; [apply iter_recent_spec|].
  apply (X2_append_keeps_lines iter_recent ["GAME"] ["PLAY"]), iter_recent_spec.
Defined.

(** X3: within one run the output depends on the word list only through
    the set of its words and the set of its first 50 words: reordering
    inside these two groups or repeating a word changes nothing. *)
Theorem X3_order_and_repeats iter words words' :
  set_iter_spec iter →
  words ⊆ words' → words' ⊆ words →
  take 50 words ⊆ take 50 words' → take 50 words' ⊆ take 50 words →
  generate_word_combinations iter words = generate_word_combinations iter words'.
Proof.
  intros Hiter H1 H2 H3 H4. apply same_sources_same_output; [done|].
  intros s. split; by apply seed_source_mono.
Qed.

Lemma X3_witness :
  set_iter_spec iter_recent
  ∧ generate_word_combinations iter_recent ["GAME"; "WIN"; "GAME"]
    = generate_word_combinations iter_recent ["WIN"; "GAME"].
Proof.
  split; [apply iter_recent_spec|].
  apply (X3_order_and_repeats iter_recent ["GAME"; "WIN"; "GAME"] ["WIN"; "GAME"]);
    [apply iter_recent_spec|by_compute..].
Defined.

(** X4: words of more than 8 characters contribute nothing, in any phase:
    a list made of such words gives the output of the empty list.  The
    length tested is that of the word as listed, so a word whose
    normalization would fit (such as "Royal-Ace") is skipped too. *)
Theorem X4_overlong_words_ignored iter words :
  set_iter_spec iter →
  Forall (λ w, 8 < String.length w) words →
  generate_word_combinations iter words = generate_word_combinations iter [].
Proof.
  intros Hiter Hlong. apply same_sources_same_output; [done|].
  intros s. split.
  - intros H. right. left. by apply (overlong_no_source iter words).
  - apply seed_source_mono; intros x Hx.
    + by apply elem_of_nil in Hx.
    + by apply elem_of_nil in Hx.
Qed.

Lemma X4_witness :
  Forall (λ w, 8 < String.length w) ["Royal-Ace"; "DISCHARGE"]
  ∧ generate_word_combinations iter_recent ["Royal-Ace"; "DISCHARGE"]
    = generate_word_combinations iter_recent [].
Proof.
  assert (Forall (λ w, 8 < String.length w) ["Royal-Ace"; "DISCHARGE"]) as H
    by by_compute.
  split; [exact H|].
  exact (X4_overlong_words_ignored iter_recent _ iter_recent_spec H).
Defined.

(** X5: for a listed word of at most 8 characters, every string that
    [generate_padded_combinations] returns for the word or for one of its
    leet variations is written. *)
Theorem X5_padded_are_written iter words word :
  set_iter_spec iter → word ∈ words → String.length word ≤ 8 →
  Forall (λ v,
      Forall (λ s, s ∈ lines (generate_word_combinations iter words))
        (generate_padded_combinations iter v DEFAULT_MAX_RESULTS))
    (generate_leet_variations word).
Proof.
  intros Hiter Hw Hlen. apply Forall_forall. intros v Hv.
  apply Forall_forall. intros s Hs. apply lines_seed_source; [done|].
  split; [by apply (gpc_valid iter v DEFAULT_MAX_RESULTS)|].
  left. exists word. split; [done|]. split; [done|]. by exists v.
Qed.

Lemma X5_witness :
  Forall (λ v,
      Forall (λ s, s ∈ lines (generate_word_combinations iter_recent ["OMEGALUL"]))
        (generate_padded_combinations iter_recent v DEFAULT_MAX_RESULTS))
    (generate_leet_variations "OMEGALUL").
Proof.
  apply (X5_padded_are_written iter_recent ["OMEGALUL"] "OMEGALUL");
    [apply iter_recent_spec|by_compute|vm_compute; lia].
Defined.

(** X6: when two of the first 50 words (possibly the same word twice) are
    written in the alphabet and their lengths add up to 8, their
    concatenation is written. *)
Theorem X6_pair_is_written iter words word1 word2 :
  set_iter_spec iter →
  word1 ∈ take 50 words → word2 ∈ take 50 words →
  String.length word1 + String.length word2 = 8 →
  good word1 → good word2 →
  word1 +:+ word2 ∈ lines (generate_word_combinations iter words).
Proof.
  intros Hiter H1 H2 Hlen Hg1 Hg2. apply lines_seed_source; [done|]. split.
  - apply valid_seed_iff. split; [by rewrite str_length_app|by apply good_app].
  - right. right. left. exists word1, word2. split_and!; [done..|]. by right.
Qed.

Lemma X6_witness :
  "GAMEPLAY" ∈ lines (generate_word_combinations iter_recent ["GAME"; "PLAY"]).
Proof.
  apply (X6_pair_is_written iter_recent ["GAME"; "PLAY"] "GAME" "PLAY");
    [apply iter_recent_spec|by_compute|by_compute|reflexivity..].
Defined.

(** X7: for a listed word written in the alphabet and one of the nine
    numbers of the word-and-number loop that fits beside it, the four
    arrangements are written, and the slice [[:8]] cuts nothing off them.
    This holds also for short words, whose padded combinations may be cut
    by the cap. *)
Theorem X7_arrangements_written iter words word num :
  set_iter_spec iter → word ∈ words → num ∈ combo_nums → good word →
  String.length word + String.length num ≤ 8 →
  Forall (λ s, s ∈ lines (generate_word_combinations iter words))
    [(word +:+ num) +:+ str_repeat "1" (8 - String.length word - String.length num);
     (num +:+ word) +:+ str_repeat "1" (8 - String.length word - String.length num);
     (word +:+ num) +:+ str_repeat "X" (8 - String.length word - String.length num);
     (num +:+ word) +:+ str_repeat "Z" (8 - String.length word - String.length num)].
Proof.
  intros Hiter Hw Hn Hg Hlen. rewrite <- num_arrangements_eq by done.
  pose proof (proj1 (Forall_forall _ _) combo_nums_good num Hn) as Hgn.
  pose proof (num_arrangements_valid word num Hg Hgn Hlen) as Hv.
  rewrite Forall_forall in Hv. apply Forall_forall. intros s Hs.
  apply lines_seed_source; [done|]. split; [by apply Hv|].
  right. right. right. by exists word, num.
Qed.

Lemma X7_witness :
  Forall (λ s, s ∈ lines (generate_word_combinations iter_recent ["WIN"]))
    ["WIN69111"; "69WIN111"; "WIN69XXX"; "69WINZZZ"].
Proof.
  apply (X7_arrangements_written iter_recent ["WIN"] "WIN" "69");
    [apply iter_recent_spec|by_compute|by_compute|reflexivity|vm_compute; lia].
Defined.

(** X8: whatever the word list, at least 48 lines are written and 48 or
    more is returned: the count is never 0. *)
Theorem X8_count_at_least_48 iter words :
  set_iter_spec iter →
  48 ≤ count (generate_word_combinations iter words)
  ∧ count (generate_word_combinations iter words)
    = length (lines (generate_word_combinations iter words)).
Proof.
  intros Hiter. split; [|done]. rewrite count_lines.
  change 48 with (length number_patterns).
  apply submseteq_length, NoDup_submseteq; [apply number_patterns_NoDup|].
  intros p Hp. by apply patterns_in_lines.
Qed.

Lemma X8_witness :
  set_iter_spec iter_recent
  ∧ 48 ≤ count (generate_word_combinations iter_recent ["-"])
  ∧ count (generate_word_combinations iter_recent ["-"])
    = length (lines (generate_word_combinations iter_recent ["-"])).
Proof.
  split; [apply iter_recent_spec|].
  apply (X8_count_at_least_48 iter_recent ["-"]), iter_recent_spec.
Defined.

(** X9: the written text reads back as the lines: splitting it at the
    newline characters gives exactly the sorted seeds, so the file has no
    empty line and no newline at its end. *)
Theorem X9_text_reads_back iter words :
  set_iter_spec iter →
  str_split newline_char (text (generate_word_combinations iter words))
  = lines (generate_word_combinations iter words).
Proof. apply written_text_lines. Qed.

Lemma X9_witness :
  set_iter_spec iter_recent
  ∧ str_split newline_char (text (generate_word_combinations iter_recent ["GAME"]))
    = lines (generate_word_combinations iter_recent ["GAME"]).
Proof.
  split; [apply iter_recent_spec|].
  apply (X9_text_reads_back iter_recent ["GAME"]), iter_recent_spec.
Defined.

(** X10: the written text has 9 characters per line less 1: eight for each
    seed and one newline between two seeds. *)
Theorem X10_text_size iter words :
  set_iter_spec iter →
  String.length (text (generate_word_combinations iter words)) + 1
  = 9 * count (generate_word_combinations iter words).
Proof.
  intros Hiter. rewrite count_lines.
  change (text (generate_word_combinations iter words))
    with (String.concat newline (lines (generate_word_combinations iter words))).
  apply concat_length; [by apply lines_nonempty|].
  apply Forall_forall. intros s [Hs _]%lines_elem.
  by apply valid_seed_iff in Hs as [? _].
Qed.

Lemma X10_witness :
  set_iter_spec iter_recent
  ∧ String.length (text (generate_word_combinations iter_recent ["GAME"])) + 1
    = 9 * count (generate_word_combinations iter_recent ["GAME"]).
Proof.
  split; [apply iter_recent_spec|].
  apply (X10_text_size iter_recent ["GAME"]), iter_recent_spec.
Defined.

(** X11: every string returned by [generate_padded_combinations] contains
    the normalized word, with exactly as many characters added before and
    after it as the word lacks to 8. *)
Theorem X11_candidates_embed_word iter word max_results :
  set_iter_spec iter →
  Forall (λ s, ∃ pre post,
            s = (pre +:+ normalize word) +:+ post
            ∧ String.length pre + String.length post
              = 8 - String.length (normalize word))
    (generate_padded_combinations iter word max_results).
Proof.
  intros Hiter. apply Forall_forall. intros s Hs.
  pose proof (gpc_valid iter word max_results s Hiter Hs) as Hv.
  apply valid_seed_iff in Hv as [Hlen _].
  assert (∃ pre post, s = (pre +:+ normalize word) +:+ post) as (pre & post & E).
  { destruct (gpc_cases word) as [H|[H|H]].
    - rewrite gpc_skip in Hs by done. by apply elem_of_nil in Hs.
    - rewrite gpc_exact in Hs by done. apply list_elem_of_singleton in Hs as ->.
      exists "", "". by rewrite str_app_nil_r.
    - apply gpc_subset in Hs; [|intros h x; apply Hiter|done].
      by apply (proj1 (Forall_forall _ _) (padded_candidates_embed _)). }
  exists pre, post. split; [done|].
  rewrite E, !str_length_app in Hlen. lia.
Qed.

Lemma X11_witness :
  set_iter_spec iter_recent
  ∧ Forall (λ s, ∃ pre post,
              s = (pre +:+ normalize "g@me") +:+ post
              ∧ String.length pre + String.length post
                = 8 - String.length (normalize "g@me"))
      (generate_padded_combinations iter_recent "g@me" DEFAULT_MAX_RESULTS).
Proof.
  split; [apply iter_recent_spec|].
  apply (X11_candidates_embed_word iter_recent "g@me"), iter_recent_spec.
Defined.

(** X12: [generate_padded_combinations] sees a word only through its
    normalization: the uppercased word and the normalized word give the
    same set as the word itself. *)
Theorem X12_normalized_word_same_set iter word max_results :
  generate_padded_combinations iter (normalize word) max_results
  = generate_padded_combinations iter word max_results
  ∧ generate_padded_combinations iter (upper word) max_results
    = generate_padded_combinations iter word max_results.
Proof.
  split; apply gpc_normalize_eq;
    [apply normalize_idempotent|apply normalize_upper].
Qed.

(** X13: for any [max_results] that is not negative, the set returned by
    [generate_padded_combinations] (here with the cap a Python int) has no
    more members than [max_results], or than 1 when [max_results] is 0: the
    cap is not applied to a word of exactly 8 characters. *)
Theorem X13_cap_nonnegative_max_results iter word (max_results : Z) :
  set_iter_spec iter → (0 ≤ max_results)%Z →
  NoDup (generate_padded_combinations_int iter word max_results)
  ∧ length (generate_padded_combinations_int iter word max_results)
    ≤ Nat.max 1 (Z.to_nat max_results).
Proof.
  intros Hiter Hk. rewrite gpc_int_nonneg by done.
  destruct (gpc_cases word) as [H|[H|H]].
  - rewrite gpc_skip by done. split; [constructor|simpl; lia].
  - rewrite gpc_exact by done. split; [apply NoDup_singleton|simpl; lia].
  - rewrite gpc_short by done. split.
    + rewrite reverse_Permutation.
      eapply sublist_NoDup; [apply Hiter|apply sublist_take].
    + rewrite length_reverse, length_take. lia.
Qed.

Lemma X13_witness :
  set_iter_spec iter_recent ∧ (0 ≤ 0)%Z
  ∧ NoDup (generate_padded_combinations_int iter_recent "WIN" 0)
  ∧ length (generate_padded_combinations_int iter_recent "WIN" 0)
    ≤ Nat.max 1 (Z.to_nat 0).
Proof.
  split; [apply iter_recent_spec|]. split; [lia|].
  apply (X13_cap_nonnegative_max_results iter_recent "WIN" 0);
    [apply iter_recent_spec|lia].
Defined.

(** X14: for a word whose normalization has 1 to 7 characters the padding
    phase collects at most 214 distinct strings, so the default cap of 200
    drops at most 14 of them. *)
Theorem X14_cap_drops_at_most_14 iter word :
  set_iter_spec iter →
  0 < String.length (normalize word) < 8 →
  length (iter (padded_candidates (normalize word))) ≤ 214
  ∧ length (iter (padded_candidates (normalize word)))
    ≤ length (generate_padded_combinations iter word DEFAULT_MAX_RESULTS) + 14.
Proof.
  intros Hiter Hlen.
  assert (length (iter (padded_candidates (normalize word))) ≤ 214) as Hb.
  { etrans; [by apply iter_length_le|].
    rewrite padded_candidates_length. apply candidates_count_bound. }
  split; [done|]. rewrite gpc_short by done.
  rewrite length_reverse, length_take. unfold DEFAULT_MAX_RESULTS. lia.
Qed.

Lemma X14_witness :
  0 < String.length (normalize "WIN") < 8
  ∧ length (iter_recent (padded_candidates (normalize "WIN"))) ≤ 214
  ∧ length (iter_recent (padded_candidates (normalize "WIN")))
    ≤ length (generate_padded_combinations iter_recent "WIN" DEFAULT_MAX_RESULTS) + 14.
Proof.
  assert (0 < String.length (normalize "WIN") < 8) as H by (vm_compute; lia).
  split; [exact H|].
  exact (X14_cap_drops_at_most_14 iter_recent "WIN" iter_recent_spec H).
Defined.

(** X15: for a word whose normalization has 4 to 7 characters the default
    cap drops nothing: the returned set has exactly the members collected
    by the padding phase.  Only words of 1 to 3 characters can lose
    candidates. *)
Theorem X15_no_loss_from_4_characters iter word s :
  set_iter_spec iter →
  4 ≤ String.length (normalize word) < 8 →
  s ∈ generate_padded_combinations iter word DEFAULT_MAX_RESULTS
  ↔ s ∈ padded_candidates (normalize word).
Proof. apply gpc_elem_below_cap. Qed.

Lemma X15_witness :
  4 ≤ String.length (normalize "Joker") < 8
  ∧ ("JOKERRRR" ∈ generate_padded_combinations iter_oldest "Joker" DEFAULT_MAX_RESULTS
     ↔ "JOKERRRR" ∈ padded_candidates (normalize "Joker")).
Proof.
  assert (4 ≤ String.length (normalize "Joker") < 8) as H by (vm_compute; lia).
  split; [exact H|].
  exact (X15_no_loss_from_4_characters iter_oldest "Joker" "JOKERRRR"
           iter_oldest_spec H).
Defined.

(** X16: the list returned by [generate_leet_variations] starts with the
    word itself; every variation has the length of the word, is written in
    the alphabet exactly when the word is, and contains the digit 0 exactly
    when the word does (the replacement of O by 0 is never made). *)
Theorem X16_leet_variations_shape word :
  head (generate_leet_variations word) = Some word
  ∧ Forall (λ v, String.length v = String.length word
                 ∧ str_forall valid_char v = str_forall valid_char word
                 ∧ char_in "0" v = char_in "0" word)
      (generate_leet_variations word).
Proof.
  split.
  { destruct (leet_variations_head word) as [rest ->]. done. }
  unfold generate_leet_variations.
  apply fold_left_invariant; [|by repeat constructor].
  intros vars [c d] Hin Hvars. unfold leet_step.
  destruct (char_in d VALID_CHARS) eqn:Hd; [|by rewrite andb_false_r].
  destruct (char_in c word); [|done]. cbn [andb].
  apply Forall_app. split; [done|]. constructor; [|constructor].
  pose proof leet_map_entries as Hall. rewrite forallb_forall in Hall.
  apply list_elem_of_In, Hall in Hin. cbn [fst snd] in Hin.
  rewrite Hd in Hin. cbn [implb] in Hin.
  apply andb_true_iff in Hin as [[[Hvc Hvd]%andb_true_iff Hc0]%andb_true_iff Hd0].
  apply negb_true_iff in Hc0, Hd0. split_and!.
  - apply str_length_map.
  - by apply str_forall_replace.
  - by apply char_in_replace.
Qed.

(** X17: [generate_leet_variations] returns the word followed by one
    variation for each of the letters A, E, I, S, T, G, B, L that occurs
    in the word (as a capital): at most 9 strings, and the word alone when
    it has none of these letters. *)
Theorem X17_leet_variations_count word :
  leet_letters = ["A"; "E"; "I"; "S"; "T"; "G"; "B"; "L"]%char
  ∧ length (generate_leet_variations word)
    = S (length (List.filter (λ c, char_in c word) leet_letters))
  ∧ length (generate_leet_variations word) ≤ 9.
Proof.
  assert (length (generate_leet_variations word)
          = S (length (List.filter (λ c, char_in c word) leet_letters))) as E.
  { unfold generate_leet_variations, leet_letters.
    rewrite leet_fold_length.
    by rewrite (filter_pairs_length (λ c, char_in c word)
                  (λ e, char_in e.2 VALID_CHARS)). }
  split_and!; [done|done|]. rewrite E.
  pose proof (List.filter_length_le (λ c, char_in c word) leet_letters) as Hle.
  change (length leet_letters) with 8 in Hle. lia.
Qed.

(** X18: for a word of at least 4 characters written in the alphabet, the
    four arrangements of the word-and-number loop are already among the
    padded combinations of the word: below the cap that loop adds nothing
    new for the word. *)
Theorem X18_arrangements_already_padded iter word num :
  set_iter_spec iter → good word → 4 ≤ String.length word →
  num ∈ combo_nums → String.length word + String.length num ≤ 8 →
  Forall (λ s, s ∈ generate_padded_combinations iter word DEFAULT_MAX_RESULTS)
    (num_arrangements word num).
Proof.
  intros Hiter Hg H4 Hn Hlen.
  assert (Forall (λ n, 0 < String.length n) combo_nums) as Hall by by_compute.
  pose proof (proj1 (Forall_forall _ _) Hall num Hn) as Hpos.
  cbv beta in Hpos. clear Hall.
  rewrite num_arrangements_eq by done.
  pose proof (combo_nums_popular num Hn) as Hp.
  assert (∀ s, s ∈ padded_candidates word →
            s ∈ generate_padded_combinations iter word DEFAULT_MAX_RESULTS) as Hin.
  { intros s Hs.
    apply gpc_elem_below_cap; rewrite ?(normalize_good word Hg); [done|lia|done]. }
  repeat constructor; apply Hin;
    apply (padded_candidates_numbers word num); try done; by_compute.
Qed.

Lemma X18_witness :
  Forall (λ s, s ∈ generate_padded_combinations iter_recent "GAME" DEFAULT_MAX_RESULTS)
    (num_arrangements "GAME" "69").
Proof.
  apply (X18_arrangements_already_padded iter_recent "GAME" "69");
    [apply iter_recent_spec|reflexivity|vm_compute; lia|by_compute|vm_compute; lia].
Defined.

Lemma ones_le_good s :
  good s → String.le (str_repeat "1" (String.length s)) s.
Proof.
  unfold String.le, String.leb, good.
  induction s as [|a s IH]; [done|]. intros [Ha Hs]%andb_true_iff.
  assert (str_forall (λ c, if Ascii.compare "1" c is Gt then false else true)
            VALID_CHARS = true) as Hall by reflexivity.
  pose proof (str_forall_char_in _ _ _ Hall Ha) as Hc. cbv beta in Hc.
  change (str_repeat "1" (String.length (String a s)))
    with (String "1"%char (str_repeat "1" (String.length s))).
  cbn [String.compare].
  destruct (Ascii.compare "1" a); [by apply IH|done|done].
Qed.

(** X19: whatever the word list, the first line written is "11111111", the
    smallest string of 8 characters of the alphabet. *)
Theorem X19_first_line iter words :
  set_iter_spec iter →
  head (lines (generate_word_combinations iter words)) = Some "11111111".
Proof.
  intros Hiter.
  pose proof (lines_sorted iter words) as Hsorted.
  pose proof (patterns_in_lines iter words "11111111" Hiter ltac:(by_compute)) as Hin.
  assert (∀ x, x ∈ lines (generate_word_combinations iter words) →
            String.le "11111111" x) as Hmin.
  { intros x [Hx _]%lines_elem. apply valid_seed_iff in Hx as [Hlen Hg].
    pose proof (ones_le_good x Hg) as Hle. by rewrite Hlen in Hle. }
  destruct (lines (generate_word_combinations iter words)) as [|x rest];
    [by apply elem_of_nil in Hin|].
  simpl. f_equal. apply StronglySorted_inv in Hsorted as [_ Hx].
  apply elem_of_cons in Hin as [->|Hin]; [done|].
  apply (anti_symm String.le).
  - by apply (proj1 (Forall_forall _ _) Hx).
  - apply Hmin. by left.
Qed.

Lemma X19_witness :
  set_iter_spec iter_oldest
  ∧ head (lines (generate_word_combinations iter_oldest ["WIN"])) = Some "11111111".
Proof.
  split; [apply iter_oldest_spec|].
  apply (X19_first_line iter_oldest ["WIN"]), iter_oldest_spec.
Defined.
